(** * The on-disk bucket record of nutsdb (bucket.go)

    A shallow embedding of [bucket.go]: the fixed header [BucketMeta], the
    record [Bucket], their codecs and the checksum helper, followed by the
    properties of the record format.

    Conventions of the embedding:
    - Go's fixed-width unsigned integers are [Z]; a conversion that can
      truncate ([uint32(x)], [byte(x)]) is written as a [mod], and the field
      ranges of a value are collected in a well-formedness predicate;
    - an [int] is a [Z] too, without wrap-around: the only [int]s of the file
      are lengths and offsets of one buffer that is allocated in full;
    - a [[]byte] is a [slice]: its visible elements and the rest of its
      backing array, since a slice expression with an explicit upper bound is
      checked against the capacity and not against the length;
    - a Go [string] is the list of its bytes;
    - a run-time panic is an outcome of its own ([Panic]), threaded through
      the calls by a small error monad;
    - a method with a pointer receiver takes the (non-nil) receiver and
      returns it as it stands after the call; a byte slice a method is given
      is returned likewise. The header a bucket points to is owned by that
      bucket alone. *)

From Stdlib Require Import ZArith List Lia Bool.
From Stdlib Require String.
From coqutil Require Import Byte Word.LittleEndianList.
Import ListNotations.
Import String.StringSyntax.
Local Open Scope Z_scope.

(** ** Panics *)

Inductive panic : Type :=
| IndexOutOfRange        (* index out of range [i] with length n *)
| SliceBoundsOutOfRange  (* slice bounds out of range *)
| NilDereference.        (* invalid memory address or nil pointer dereference *)

Inductive outcome (A : Type) : Type :=
| Ok (a : A)
| Panic (p : panic).
Arguments Ok {A} a.
Arguments Panic {A} p.

Definition bind {A B : Type} (m : outcome A) (k : A -> outcome B) : outcome B :=
  match m with
  | Ok a => k a
  | Panic p => Panic p
  end.

Notation "x <- m ;; k" := (bind m (fun x => k))
  (at level 61, m at next level, right associativity).

(** The panics of an access outside a slice. *)
Definition out_of_bounds (p : panic) : bool :=
  match p with
  | IndexOutOfRange | SliceBoundsOutOfRange => true
  | NilDereference => false
  end.

(** ** Byte slices *)

Record slice : Type := mkSlice {
  elems : list byte;  (* s[0], ..., s[len(s)-1] *)
  spare : list byte   (* the backing array between len(s) and cap(s) *)
}.

Definition len (s : slice) : Z := Z.of_nat (length (elems s)).
Definition cap (s : slice) : Z := Z.of_nat (length (elems s ++ spare s)).

(** [make([]byte, n)]: n zero bytes, capacity n; the file never asks for a
    negative length. *)
Definition make (n : Z) : slice :=
  mkSlice (repeat Byte.x00 (Z.to_nat n)) [].

(** [s[i]] *)
Definition index (s : slice) (i : Z) : outcome byte :=
  if (0 <=? i) && (i <? len s) then
    match nth_error (elems s) (Z.to_nat i) with
    | Some b => Ok b
    | None => Panic IndexOutOfRange
    end
  else Panic IndexOutOfRange.

(** [s[lo:hi]]: the bounds are checked against the capacity. *)
Definition reslice (s : slice) (lo hi : Z) : outcome slice :=
  if (0 <=? lo) && (lo <=? hi) && (hi <=? cap s) then
    let backing := elems s ++ spare s in
    Ok (mkSlice (skipn (Z.to_nat lo) (firstn (Z.to_nat hi) backing))
                (skipn (Z.to_nat hi) backing))
  else Panic SliceBoundsOutOfRange.

(** [s[:hi]] and [s[lo:]]; a missing upper bound is [len(s)]. *)
Definition slice_to (s : slice) (hi : Z) : outcome slice := reslice s 0 hi.
Definition slice_from (s : slice) (lo : Z) : outcome slice := reslice s lo (len s).

(** The backing array of [s] after [xs] was stored at [s[off]], [s[off+1]],
    ...; the stores of this file stay inside the slice. *)
Definition store (s : slice) (off : nat) (xs : list byte) : slice :=
  mkSlice (firstn off (elems s) ++ xs ++ skipn (off + length xs) (elems s))
          (spare s).

(** [copy(dst[lo:], src)] for a string [src], seen from [dst]: the copy
    stops at the shorter of the two. *)
Definition copy_from (dst : slice) (lo : Z) (src : list byte) : outcome slice :=
  w <- slice_from dst lo ;;
  Ok (store dst (Z.to_nat lo) (firstn (length (elems w)) src)).

(** [string(s)] *)
Definition string_of (s : slice) : list byte := elems s.

(** ** encoding/binary, little endian *)

Module LittleEndian.

Definition u (b : byte) : Z := byte.unsigned b.

Definition Uint16 (b : slice) : outcome Z :=
  _ <- index b 1 ;;
  b0 <- index b 0 ;; b1 <- index b 1 ;;
  Ok (Z.lor (u b0) (Z.shiftl (u b1) 8)).

Definition Uint32 (b : slice) : outcome Z :=
  _ <- index b 3 ;;
  b0 <- index b 0 ;; b1 <- index b 1 ;; b2 <- index b 2 ;; b3 <- index b 3 ;;
  Ok (Z.lor (Z.lor (Z.lor (u b0) (Z.shiftl (u b1) 8)) (Z.shiftl (u b2) 16))
            (Z.shiftl (u b3) 24)).

Definition Uint64 (b : slice) : outcome Z :=
  _ <- index b 7 ;;
  b0 <- index b 0 ;; b1 <- index b 1 ;; b2 <- index b 2 ;; b3 <- index b 3 ;;
  b4 <- index b 4 ;; b5 <- index b 5 ;; b6 <- index b 6 ;; b7 <- index b 7 ;;
  Ok (Z.lor (Z.lor (Z.lor (Z.lor (Z.lor (Z.lor (Z.lor
        (u b0) (Z.shiftl (u b1) 8)) (Z.shiftl (u b2) 16)) (Z.shiftl (u b3) 24))
        (Z.shiftl (u b4) 32)) (Z.shiftl (u b5) 40)) (Z.shiftl (u b6) 48))
        (Z.shiftl (u b7) 56)).

(** [PutUintN(buf[lo:hi], v)], seen from [buf]: the sub-slice shares the
    backing array, so the bytes land in [buf] from offset [lo]. *)
Definition PutUint16 (buf : slice) (lo hi : Z) (v : Z) : outcome slice :=
  b <- reslice buf lo hi ;;
  _ <- index b 1 ;;
  Ok (store buf (Z.to_nat lo) [byte.of_Z v; byte.of_Z (Z.shiftr v 8)]).

Definition PutUint32 (buf : slice) (lo hi : Z) (v : Z) : outcome slice :=
  b <- reslice buf lo hi ;;
  _ <- index b 3 ;;
  Ok (store buf (Z.to_nat lo)
        [byte.of_Z v; byte.of_Z (Z.shiftr v 8);
         byte.of_Z (Z.shiftr v 16); byte.of_Z (Z.shiftr v 24)]).

Definition PutUint64 (buf : slice) (lo hi : Z) (v : Z) : outcome slice :=
  b <- reslice buf lo hi ;;
  _ <- index b 7 ;;
  Ok (store buf (Z.to_nat lo)
        [byte.of_Z v; byte.of_Z (Z.shiftr v 8);
         byte.of_Z (Z.shiftr v 16); byte.of_Z (Z.shiftr v 24);
         byte.of_Z (Z.shiftr v 32); byte.of_Z (Z.shiftr v 40);
         byte.of_Z (Z.shiftr v 48); byte.of_Z (Z.shiftr v 56)]).

End LittleEndian.

(** ** hash/crc32

    The portable implementation of the package: the table of a polynomial,
    and the byte-at-a-time update. The package's faster code paths compute
    the same function. *)

Module crc32.

Definition IEEE : Z := 0xedb88320.

(** [^x] on a [uint32] *)
Definition not32 (x : Z) : Z := Z.lxor x 0xffffffff.

Fixpoint populate_entry (j : nat) (poly crc : Z) : Z :=
  match j with
  | O => crc
  | S j' =>
      populate_entry j' poly
        (if Z.land crc 1 =? 1 then Z.lxor (Z.shiftr crc 1) poly
         else Z.shiftr crc 1)
  end.

Definition simpleMakeTable (poly : Z) : list Z :=
  map (fun i => populate_entry 8 poly (Z.of_nat i)) (seq 0 256).

Definition IEEETable : list Z := simpleMakeTable IEEE.

(** One turn of the loop of [simpleUpdate]:
    [crc = tab[byte(crc)^v] ^ (crc >> 8)]. *)
Definition step (tab : list Z) (crc : Z) (v : byte) : Z :=
  Z.lxor (nth (Z.to_nat (Z.lxor (crc mod 2 ^ 8) (byte.unsigned v))) tab 0)
         (Z.shiftr crc 8).

Definition simpleUpdate (crc : Z) (tab : list Z) (p : slice) : Z :=
  not32 (fold_left (step tab) (elems p) (not32 crc)).

Definition Update (crc : Z) (tab : list Z) (p : slice) : Z :=
  simpleUpdate crc tab p.

Definition ChecksumIEEE (data : slice) : Z := Update 0 IEEETable data.

End crc32.

(** ** bucket.go *)

(** Go's conversions to the unsigned types. *)
Definition uint16 (x : Z) : Z := x mod 2 ^ 16.
Definition uint32 (x : Z) : Z := x mod 2 ^ 32.
Definition uint64 (x : Z) : Z := x mod 2 ^ 64.

(** The kinds of the fields of the header, as [BucketMeta] declares them:
    [Crc uint32], [Op BucketOperation] (a [uint16]) and [Size uint32]. *)
Inductive kind : Type := Uint8 | Uint16 | Uint32 | Uint64.

Definition kind_width (k : kind) : Z :=
  match k with
  | Uint8 => 1
  | Uint16 => 2
  | Uint32 => 4
  | Uint64 => 8
  end.

Definition BucketMeta_fields : list kind := [Uint32; Uint16; Uint32].

(** Modelled from the spec: [GetDiskSizeFromSingleObject], which [init]
    calls on a zero [BucketMeta] and which is defined outside [bucket.go].
    The spec gives its result as the exact byte width of the fields of the
    value it is given; the value is represented by the kinds of its
    fields. *)
Definition GetDiskSizeFromSingleObject (fields : list kind) : Z :=
  fold_right (fun k size => kind_width k + size) 0 fields.

(** [init] *)
Definition BucketMetaSize : Z := GetDiskSizeFromSingleObject BucketMeta_fields.

Definition IdSize : Z := 8.
Definition DsSize : Z := 2.

Definition BucketInsertOperation : Z := 1.
Definition BucketUpdateOperation : Z := 2.
Definition BucketDeleteOperation : Z := 3.

(** The error values of the file; a nil [error] is [None]. *)
Inductive error : Type := ErrBucketCrcInvalid.

Module BucketMeta.

Record t : Type := mk {
  Crc : Z;   (* uint32 *)
  Op : Z;    (* BucketOperation, a uint16 *)
  Size : Z   (* uint32 *)
}.

Definition wf (m : t) : Prop :=
  0 <= Crc m < 2 ^ 32 /\ 0 <= Op m < 2 ^ 16 /\ 0 <= Size m < 2 ^ 32.

(** [func (meta *BucketMeta) Decode(bytes []byte)]: the header after the
    call, and the slice it was given. *)
Definition Decode (meta : t) (bytes : slice) : outcome (t * slice) :=
  _ <- index bytes (BucketMetaSize - 1) ;;
  b <- slice_to bytes 4 ;;
  crc <- LittleEndian.Uint32 b ;;
  b <- reslice bytes 4 6 ;;
  op <- LittleEndian.Uint16 b ;;
  b <- reslice bytes 6 10 ;;
  size <- LittleEndian.Uint32 b ;;
  let meta := mk crc (Op meta) (Size meta) in
  let meta := mk (Crc meta) (Op meta) size in
  let meta := mk (Crc meta) op (Size meta) in
  Ok (meta, bytes).

End BucketMeta.

Module Bucket.

Record t : Type := mk {
  Meta : option BucketMeta.t;  (* *BucketMeta, nil is None *)
  Id : Z;                      (* BucketId, a uint64 *)
  Ds : Z;                      (* Ds, a uint16 *)
  Name : list byte             (* string *)
}.

Definition wf (b : t) : Prop :=
  0 <= Id b < 2 ^ 64 /\ 0 <= Ds b < 2 ^ 16 /\
  match Meta b with Some m => BucketMeta.wf m | None => True end.

(** [b.Meta], dereferenced *)
Definition deref_Meta (b : t) : outcome BucketMeta.t :=
  match Meta b with
  | Some m => Ok m
  | None => Panic NilDereference
  end.

Definition GetPayloadSize (b : t) : Z :=
  IdSize + DsSize + Z.of_nat (length (Name b)).

Definition GetEntrySize (b : t) : Z :=
  BucketMetaSize + GetPayloadSize b.

(** [func (b *Bucket) Encode() []byte]: the returned buffer and the
    receiver after the call. *)
Definition Encode (b : t) : outcome (slice * t) :=
  let entrySize := GetEntrySize b in
  let buf := make entrySize in
  meta <- deref_Meta b ;;
  let meta := BucketMeta.mk (BucketMeta.Crc meta) (BucketMeta.Op meta)
                            (uint32 (GetPayloadSize b)) in
  buf <- LittleEndian.PutUint16 buf 4 6 (uint16 (BucketMeta.Op meta)) ;;
  buf <- LittleEndian.PutUint32 buf 6 10 (BucketMeta.Size meta) ;;
  buf <- LittleEndian.PutUint64 buf BucketMetaSize (BucketMetaSize + IdSize)
           (uint64 (Id b)) ;;
  buf <- LittleEndian.PutUint16 buf (BucketMetaSize + IdSize)
           (BucketMetaSize + IdSize + DsSize) (uint16 (Ds b)) ;;
  buf <- copy_from buf (BucketMetaSize + IdSize + DsSize) (Name b) ;;
  tail <- slice_from buf 4 ;;
  let c32 := crc32.ChecksumIEEE tail in
  let meta := BucketMeta.mk c32 (BucketMeta.Op meta) (BucketMeta.Size meta) in
  buf <- LittleEndian.PutUint32 buf 0 4 c32 ;;
  Ok (buf, mk (Some meta) (Id b) (Ds b) (Name b)).

(** [func (b *Bucket) Decode(bytes []byte) error]: the receiver after the
    call, the slice it was given, and the returned error. *)
Definition Decode (b : t) (bytes : slice) : outcome (t * slice * option error) :=
  s <- slice_to bytes IdSize ;;
  id <- LittleEndian.Uint64 s ;;
  s <- reslice bytes IdSize (IdSize + DsSize) ;;
  ds <- LittleEndian.Uint16 s ;;
  name <- slice_from bytes (IdSize + DsSize) ;;
  let b := mk (Meta b) id (Ds b) (Name b) in
  let b := mk (Meta b) (Id b) (Ds b) (string_of name) in
  let b := mk (Meta b) (Id b) ds (Name b) in
  Ok (b, bytes, None).

Definition GetCRC (b : t) (headerBuf dataBuf : slice) : outcome Z :=
  h <- slice_from headerBuf 4 ;;
  let crc := crc32.ChecksumIEEE h in
  let crc := crc32.Update crc crc32.IEEETable dataBuf in
  Ok crc.

End Bucket.

(** ** Auxiliary definitions of the proofs *)

Definition is_uint32 (x : Z) : bool := (0 <=? x) && (x <? 2 ^ 32).

(** No two elements of [l] are equal. *)
Fixpoint all_distinct (l : list Z) : bool :=
  match l with
  | [] => true
  | x :: t => negb (existsb (Z.eqb x) t) && all_distinct t
  end.

(** The bytes [Encode] lays down after the checksum field: the rest of the
    header, then the payload. *)
Definition header_rest (m : BucketMeta.t) (b : Bucket.t) : list byte :=
  le_split 2 (uint16 (BucketMeta.Op m)) ++
  le_split 4 (uint32 (Bucket.GetPayloadSize b)).

Definition payload (b : Bucket.t) : list byte :=
  le_split 8 (uint64 (Bucket.Id b)) ++ le_split 2 (uint16 (Bucket.Ds b)) ++
  Bucket.Name b.

Definition checksum (m : BucketMeta.t) (b : Bucket.t) : Z :=
  crc32.ChecksumIEEE (mkSlice (header_rest m b ++ payload b) []).

Definition encoded_meta (m : BucketMeta.t) (b : Bucket.t) : BucketMeta.t :=
  BucketMeta.mk (checksum m b) (BucketMeta.Op m) (uint32 (Bucket.GetPayloadSize b)).

(** The record [Encode] returns for a bucket whose header is [m]. *)
Definition encoded (m : BucketMeta.t) (b : Bucket.t) : slice :=
  mkSlice (le_split 4 (checksum m b) ++ header_rest m b ++ payload b) [].

(** The bucket of the scenario of the format description: insert, id 42,
    data structure 1, name "orders". *)
Definition orders_bucket : Bucket.t :=
  Bucket.mk (Some (BucketMeta.mk 0 BucketInsertOperation 0)) 42 1
            (String.list_byte_of_string "orders").

(** A name so long that the payload size is [2 ^ 32], one more than a
    [uint32] holds. *)
Definition long_name : list byte := repeat Byte.x00 (Z.to_nat (2 ^ 32 - 10)).

Definition long_bucket : Bucket.t :=
  Bucket.mk (Some (BucketMeta.mk 0 BucketInsertOperation 0)) 1 1 long_name.

(** A header slice and a payload slice with spare capacity, for the
    instances below. *)
Definition sample_header : slice :=
  mkSlice [Byte.x78; Byte.x56; Byte.x34; Byte.x12; Byte.x02; Byte.x00;
           Byte.x0b; Byte.x00; Byte.x00; Byte.x00; Byte.xff]
          [Byte.xaa].

Definition sample_payload : slice :=
  mkSlice [Byte.x07; Byte.x00; Byte.x00; Byte.x00; Byte.x00; Byte.x00;
           Byte.x00; Byte.x00; Byte.x03; Byte.x00; Byte.x61]
          [Byte.xbb].

Definition sample_bucket : Bucket.t :=
  Bucket.mk (Some (BucketMeta.mk 5 BucketDeleteOperation 9)) 1 2 [Byte.x7a].

(** * Properties *)

(** ** Slices *)

Lemma cap_ge_len (s : slice) : len s <= cap s.
Proof. unfold len, cap. rewrite length_app. lia. Qed.

Lemma len_make (n : Z) : 0 <= n -> len (make n) = n.
Proof. intros Hn. unfold len, make. cbn [elems]. rewrite repeat_length. lia. Qed.

Lemma len_store (s : slice) (off : nat) (xs : list byte) :
  Z.of_nat off + Z.of_nat (length xs) <= len s -> len (store s off xs) = len s.
Proof.
  unfold len, store. cbn [elems]. intros H.
  rewrite !length_app, length_firstn, length_skipn. lia.
Qed.

Lemma reslice_Ok (s : slice) (lo hi : Z) :
  0 <= lo <= hi -> hi <= cap s ->
  reslice s lo hi =
  Ok (mkSlice (skipn (Z.to_nat lo) (firstn (Z.to_nat hi) (elems s ++ spare s)))
              (skipn (Z.to_nat hi) (elems s ++ spare s))).
Proof.
  intros [H0 H1] H2. unfold reslice.
  replace ((0 <=? lo) && (lo <=? hi) && (hi <=? cap s)) with true; [reflexivity|].
  symmetry. rewrite !andb_true_iff, !Z.leb_le. auto.
Qed.

Lemma reslice_Panic (s : slice) (lo hi : Z) :
  ~ (0 <= lo <= hi /\ hi <= cap s) ->
  reslice s lo hi = Panic SliceBoundsOutOfRange.
Proof.
  intros H. unfold reslice.
  destruct ((0 <=? lo) && (lo <=? hi) && (hi <=? cap s)) eqn:E; [|reflexivity].
  rewrite !andb_true_iff, !Z.leb_le in E. exfalso. apply H. lia.
Qed.

Lemma len_reslice (s : slice) (lo hi : Z) :
  0 <= lo <= hi -> hi <= cap s ->
  len (mkSlice (skipn (Z.to_nat lo) (firstn (Z.to_nat hi) (elems s ++ spare s)))
               (skipn (Z.to_nat hi) (elems s ++ spare s))) = hi - lo.
Proof.
  intros H0 H1. unfold len, cap in *. cbn [elems].
  rewrite length_skipn, length_firstn. lia.
Qed.

Lemma reslice_len (s w : slice) (lo hi : Z) :
  reslice s lo hi = Ok w -> len w = hi - lo.
Proof.
  unfold reslice. destruct ((0 <=? lo) && (lo <=? hi) && (hi <=? cap s)) eqn:E;
    [|discriminate].
  rewrite !andb_true_iff, !Z.leb_le in E. intros [= <-].
  apply len_reslice; lia.
Qed.

Lemma index_nat (s : slice) (i : nat) :
  index s (Z.of_nat i) =
  match nth_error (elems s) i with
  | Some b => Ok b
  | None => Panic IndexOutOfRange
  end.
Proof.
  unfold index, len. rewrite Nat2Z.id.
  destruct (nth_error (elems s) i) eqn:E.
  - assert (i < length (elems s))%nat by (apply nth_error_Some; congruence).
    replace ((0 <=? Z.of_nat i) && (Z.of_nat i <? Z.of_nat (length (elems s))))
      with true; [reflexivity|].
    symmetry. rewrite andb_true_iff, Z.leb_le, Z.ltb_lt. lia.
  - destruct (_ && _); reflexivity.
Qed.

Lemma index_Panic (s : slice) (i : Z) :
  ~ (0 <= i < len s) -> index s i = Panic IndexOutOfRange.
Proof.
  intros H. unfold index.
  destruct ((0 <=? i) && (i <? len s)) eqn:E; [|reflexivity].
  rewrite andb_true_iff, Z.leb_le, Z.ltb_lt in E. contradiction.
Qed.

Lemma index_nth_error (s : slice) (i : Z) :
  0 <= i ->
  index s i =
  match nth_error (elems s) (Z.to_nat i) with
  | Some b => Ok b
  | None => Panic IndexOutOfRange
  end.
Proof. intros H. rewrite <- (Z2Nat.id i) at 1 by exact H. apply index_nat. Qed.

(** ** Little-endian integers *)

Ltac lor_shift_norm :=
  unfold le_combine;
  repeat first
    [ rewrite Z.shiftl_0_l | rewrite Z.lor_0_r | rewrite Z.shiftl_lor
    | rewrite Z.shiftl_shiftl by lia | rewrite Z.lor_assoc ];
  cbn [Z.add Pos.add Pos.succ Pos.add_carry].

Ltac read_indices :=
  rewrite !index_nth_error by lia;
  repeat match goal with
    | |- context [Z.to_nat ?n] =>
        let k := eval vm_compute in (Z.to_nat n) in change (Z.to_nat n) with k
    end;
  cbn [elems nth_error bind].

Lemma Uint16_cons (b0 b1 : byte) (r sp : list byte) :
  LittleEndian.Uint16 (mkSlice (b0 :: b1 :: r) sp) = Ok (le_combine [b0; b1]).
Proof.
  unfold LittleEndian.Uint16, LittleEndian.u. read_indices.
  f_equal. lor_shift_norm. reflexivity.
Qed.

Lemma Uint32_cons (b0 b1 b2 b3 : byte) (r sp : list byte) :
  LittleEndian.Uint32 (mkSlice (b0 :: b1 :: b2 :: b3 :: r) sp) =
  Ok (le_combine [b0; b1; b2; b3]).
Proof.
  unfold LittleEndian.Uint32, LittleEndian.u. read_indices.
  f_equal. lor_shift_norm. reflexivity.
Qed.

Lemma Uint64_cons (b0 b1 b2 b3 b4 b5 b6 b7 : byte) (r sp : list byte) :
  LittleEndian.Uint64 (mkSlice (b0 :: b1 :: b2 :: b3 :: b4 :: b5 :: b6 :: b7 :: r) sp) =
  Ok (le_combine [b0; b1; b2; b3; b4; b5; b6; b7]).
Proof.
  unfold LittleEndian.Uint64, LittleEndian.u. read_indices.
  f_equal. lor_shift_norm. reflexivity.
Qed.

Tactic Notation "split_elems" constr(s) integer(n) :=
  let l := fresh "l" in
  let sp := fresh "sp" in
  destruct s as [l sp]; unfold len in *; cbn [elems] in *;
  do n (destruct l as [|? l]; [cbn [length] in *; lia|]).

Lemma Uint16_spec (s : slice) :
  2 <= len s -> LittleEndian.Uint16 s = Ok (le_combine (firstn 2 (elems s))).
Proof. intros H. split_elems s 2. apply Uint16_cons. Qed.

Lemma Uint32_spec (s : slice) :
  4 <= len s -> LittleEndian.Uint32 s = Ok (le_combine (firstn 4 (elems s))).
Proof. intros H. split_elems s 4. apply Uint32_cons. Qed.

Lemma Uint64_spec (s : slice) :
  8 <= len s -> LittleEndian.Uint64 s = Ok (le_combine (firstn 8 (elems s))).
Proof. intros H. split_elems s 8. apply Uint64_cons. Qed.

Lemma le_split_2 (v : Z) :
  [byte.of_Z v; byte.of_Z (Z.shiftr v 8)] = le_split 2 v.
Proof. reflexivity. Qed.

Lemma le_split_4 (v : Z) :
  [byte.of_Z v; byte.of_Z (Z.shiftr v 8);
   byte.of_Z (Z.shiftr v 16); byte.of_Z (Z.shiftr v 24)] = le_split 4 v.
Proof. unfold le_split. rewrite !Z.shiftr_shiftr by lia. reflexivity. Qed.

Lemma le_split_8 (v : Z) :
  [byte.of_Z v; byte.of_Z (Z.shiftr v 8);
   byte.of_Z (Z.shiftr v 16); byte.of_Z (Z.shiftr v 24);
   byte.of_Z (Z.shiftr v 32); byte.of_Z (Z.shiftr v 40);
   byte.of_Z (Z.shiftr v 48); byte.of_Z (Z.shiftr v 56)] = le_split 8 v.
Proof. unfold le_split. rewrite !Z.shiftr_shiftr by lia. reflexivity. Qed.

Lemma index_in_window (s : slice) (lo hi i : Z) :
  0 <= lo -> 0 <= i -> lo + i < hi -> hi <= cap s ->
  exists b,
    index (mkSlice (skipn (Z.to_nat lo) (firstn (Z.to_nat hi) (elems s ++ spare s)))
                   (skipn (Z.to_nat hi) (elems s ++ spare s))) i = Ok b.
Proof.
  intros Hlo Hi Hhi Hcap. rewrite index_nth_error by exact Hi. cbn [elems].
  destruct (nth_error _ _) as [b|] eqn:E; [eauto|].
  apply nth_error_None in E. unfold cap in Hcap.
  rewrite length_skipn, length_firstn in E. lia.
Qed.

Section PutUint.
Variables (buf : slice) (lo hi v : Z).
Hypothesis Hlo : 0 <= lo.
Hypothesis Hhi : hi <= len buf.

Lemma PutUint16_Ok :
  lo + 2 <= hi ->
  LittleEndian.PutUint16 buf lo hi v = Ok (store buf (Z.to_nat lo) (le_split 2 v)).
Proof.
  intros H. pose proof (cap_ge_len buf). unfold LittleEndian.PutUint16.
  rewrite reslice_Ok by lia. cbn [bind].
  destruct (index_in_window buf lo hi 1) as [b ->]; try lia.
  reflexivity.
Qed.

Lemma PutUint32_Ok :
  lo + 4 <= hi ->
  LittleEndian.PutUint32 buf lo hi v = Ok (store buf (Z.to_nat lo) (le_split 4 v)).
Proof.
  intros H. pose proof (cap_ge_len buf). unfold LittleEndian.PutUint32.
  rewrite reslice_Ok by lia. cbn [bind].
  destruct (index_in_window buf lo hi 3) as [b ->]; try lia.
  cbn [bind]. rewrite le_split_4. reflexivity.
Qed.

Lemma PutUint64_Ok :
  lo + 8 <= hi ->
  LittleEndian.PutUint64 buf lo hi v = Ok (store buf (Z.to_nat lo) (le_split 8 v)).
Proof.
  intros H. pose proof (cap_ge_len buf). unfold LittleEndian.PutUint64.
  rewrite reslice_Ok by lia. cbn [bind].
  destruct (index_in_window buf lo hi 7) as [b ->]; try lia.
  cbn [bind]. rewrite le_split_8. reflexivity.
Qed.
End PutUint.

Lemma copy_from_Ok (dst : slice) (lo : Z) (src : list byte) :
  0 <= lo <= len dst -> spare dst = [] ->
  copy_from dst lo src =
  Ok (store dst (Z.to_nat lo) (firstn (Z.to_nat (len dst - lo)) src)).
Proof.
  intros H Hsp. pose proof (cap_ge_len dst). unfold copy_from, slice_from.
  rewrite reslice_Ok by lia. cbn [bind elems]. do 3 f_equal.
  rewrite Hsp, app_nil_r, length_skipn, length_firstn. unfold len. lia.
Qed.

(** ** The checksum *)

Lemma lxor_range (n a b : Z) :
  0 <= n -> 0 <= a < 2 ^ n -> 0 <= b < 2 ^ n -> 0 <= Z.lxor a b < 2 ^ n.
Proof.
  intros Hn Ha Hb.
  assert (E : Z.lxor a b = Z.lxor a b mod 2 ^ n).
  { apply Z.bits_inj'. intros i Hi. destruct (Z.lt_ge_cases i n) as [Hlt | Hge].
    - rewrite Z.mod_pow2_bits_low by lia. reflexivity.
    - rewrite Z.mod_pow2_bits_high by lia.
      rewrite Z.lxor_spec.
      rewrite <- (Z.mod_small a (2 ^ n)), <- (Z.mod_small b (2 ^ n)) by assumption.
      rewrite !Z.mod_pow2_bits_high by lia. reflexivity. }
  rewrite E. apply Z.mod_pos_bound. apply Z.pow_pos_nonneg; lia.
Qed.

Lemma not32_involutive (x : Z) : crc32.not32 (crc32.not32 x) = x.
Proof.
  unfold crc32.not32. rewrite Z.lxor_assoc, Z.lxor_nilpotent. apply Z.lxor_0_r.
Qed.

Lemma not32_range (x : Z) : 0 <= x < 2 ^ 32 -> 0 <= crc32.not32 x < 2 ^ 32.
Proof. intros H. apply lxor_range; lia. Qed.

Lemma is_uint32_spec (x : Z) : is_uint32 x = true <-> 0 <= x < 2 ^ 32.
Proof. unfold is_uint32. rewrite andb_true_iff, Z.leb_le, Z.ltb_lt. tauto. Qed.

Lemma IEEETable_range (i : nat) : 0 <= nth i crc32.IEEETable 0 < 2 ^ 32.
Proof.
  assert (H : forallb is_uint32 crc32.IEEETable = true) by (vm_compute; reflexivity).
  rewrite forallb_forall in H.
  destruct (nth_in_or_default i crc32.IEEETable 0) as [Hin | ->]; [|lia].
  apply is_uint32_spec, H, Hin.
Qed.

Lemma step_range (crc : Z) (v : byte) :
  0 <= crc < 2 ^ 32 -> 0 <= crc32.step crc32.IEEETable crc v < 2 ^ 32.
Proof.
  intros H. unfold crc32.step. apply lxor_range; [lia | apply IEEETable_range |].
  rewrite Z.shiftr_div_pow2 by lia. split.
  - apply Z.div_pos; lia.
  - apply Z.div_lt_upper_bound; lia.
Qed.

Lemma fold_step_range (p : list byte) (crc : Z) :
  0 <= crc < 2 ^ 32 ->
  0 <= fold_left (crc32.step crc32.IEEETable) p crc < 2 ^ 32.
Proof.
  revert crc. induction p as [|v p IH]; intros crc H; cbn [fold_left].
  - exact H.
  - apply IH, step_range, H.
Qed.

Lemma Update_range (crc : Z) (p : slice) :
  0 <= crc < 2 ^ 32 -> 0 <= crc32.Update crc crc32.IEEETable p < 2 ^ 32.
Proof.
  intros H. unfold crc32.Update, crc32.simpleUpdate.
  apply not32_range, fold_step_range, not32_range, H.
Qed.

Lemma ChecksumIEEE_range (data : slice) : 0 <= crc32.ChecksumIEEE data < 2 ^ 32.
Proof. apply Update_range. lia. Qed.

(** Updating a checksum with more bytes is the checksum of the concatenation. *)
Lemma Update_app (tab : list Z) (crc : Z) (p q pq : slice) :
  elems pq = elems p ++ elems q ->
  crc32.Update (crc32.Update crc tab p) tab q = crc32.Update crc tab pq.
Proof.
  intros E. unfold crc32.Update, crc32.simpleUpdate.
  rewrite not32_involutive, E, fold_left_app. reflexivity.
Qed.

Lemma ChecksumIEEE_elems (p q : slice) :
  elems p = elems q -> crc32.ChecksumIEEE p = crc32.ChecksumIEEE q.
Proof.
  intros E. unfold crc32.ChecksumIEEE, crc32.Update, crc32.simpleUpdate.
  rewrite E. reflexivity.
Qed.

(** ** The layout of an encoded record *)

Lemma BucketMetaSize_eq : BucketMetaSize = 10.
Proof. reflexivity. Qed.

Lemma length_header_rest (m : BucketMeta.t) (b : Bucket.t) :
  length (header_rest m b) = 6%nat.
Proof. reflexivity. Qed.

Lemma length_payload (b : Bucket.t) :
  Z.of_nat (length (payload b)) = Bucket.GetPayloadSize b.
Proof.
  unfold payload, Bucket.GetPayloadSize, IdSize, DsSize.
  rewrite !length_app, !length_le_split. lia.
Qed.

Ltac nat_literal k :=
  lazymatch k with
  | O => idtac
  | S ?k' => nat_literal k'
  end.

Ltac closed_to_nat :=
  repeat match goal with
    | |- context [Z.to_nat ?n] =>
        let k := eval vm_compute in (Z.to_nat n) in
        nat_literal k; change (Z.to_nat n) with k
    end.

Lemma Encode_encoded (b : Bucket.t) (m : BucketMeta.t) :
  Bucket.Meta b = Some m ->
  Bucket.Encode b =
  Ok (encoded m b,
      Bucket.mk (Some (encoded_meta m b)) (Bucket.Id b) (Bucket.Ds b) (Bucket.Name b)).
Proof.
  intros HM. unfold encoded, Bucket.Encode, Bucket.deref_Meta. rewrite HM.
  cbn [bind BucketMeta.Op BucketMeta.Size BucketMeta.Crc].
  set (n := length (Bucket.Name b)).
  assert (HE : Bucket.GetEntrySize b = 20 + Z.of_nat n).
  { unfold Bucket.GetEntrySize, Bucket.GetPayloadSize, IdSize, DsSize.
    rewrite BucketMetaSize_eq. subst n. lia. }
  rewrite HE. change BucketMetaSize with 10. unfold IdSize, DsSize.
  set (buf0 := make (20 + Z.of_nat n)).
  assert (L0 : len buf0 = 20 + Z.of_nat n) by (apply len_make; lia).
  rewrite PutUint16_Ok by lia. cbn [bind].
  set (buf1 := store buf0 _ _).
  assert (L1 : len buf1 = 20 + Z.of_nat n).
  { subst buf1. rewrite len_store; rewrite ?length_le_split; lia. }
  rewrite PutUint32_Ok by lia. cbn [bind].
  set (buf2 := store buf1 _ _).
  assert (L2 : len buf2 = 20 + Z.of_nat n).
  { subst buf2. rewrite len_store; rewrite ?length_le_split; lia. }
  rewrite PutUint64_Ok by lia. cbn [bind].
  set (buf3 := store buf2 _ _).
  assert (L3 : len buf3 = 20 + Z.of_nat n).
  { subst buf3. rewrite len_store; rewrite ?length_le_split; lia. }
  rewrite PutUint16_Ok by lia. cbn [bind].
  set (buf4 := store buf3 _ _).
  assert (L4 : len buf4 = 20 + Z.of_nat n).
  { subst buf4. rewrite len_store; rewrite ?length_le_split; lia. }
  rewrite copy_from_Ok by (try reflexivity; lia). cbn [bind].
  replace (Z.to_nat (len buf4 - (10 + 8 + 2))) with n by lia.
  replace (firstn n (Bucket.Name b)) with (Bucket.Name b)
    by (symmetry; apply firstn_all).
  set (buf5 := store buf4 _ _).
  assert (E5 : elems buf5 =
               [Byte.x00; Byte.x00; Byte.x00; Byte.x00] ++ header_rest m b ++ payload b).
  { subst buf5 buf4 buf3 buf2 buf1 buf0. unfold make, store, header_rest, payload.
    replace (Z.to_nat (20 + Z.of_nat n)) with (20 + n)%nat by lia.
    closed_to_nat. unfold le_split.
    cbn [elems spare repeat Nat.add firstn skipn app length].
    rewrite skipn_all2 by (rewrite repeat_length; subst n; lia).
    rewrite app_nil_r. reflexivity. }
  assert (S5 : spare buf5 = []) by reflexivity.
  assert (L5 : len buf5 = 20 + Z.of_nat n).
  { unfold len. rewrite E5, !length_app, length_header_rest.
    pose proof (length_payload b) as HP. unfold Bucket.GetPayloadSize, IdSize, DsSize in HP.
    cbn [length]. lia. }
  clearbody buf5. pose proof (cap_ge_len buf5).
  unfold slice_from. rewrite reslice_Ok by lia. cbn [bind].
  rewrite PutUint32_Ok by lia. cbn [bind].
  replace (Z.to_nat (len buf5)) with (length (elems buf5)) by (unfold len; lia).
  unfold store, encoded_meta. rewrite S5, app_nil_r, firstn_all, E5. closed_to_nat.
  rewrite length_le_split.
  cbn [elems firstn skipn app Nat.add].
  reflexivity.
Qed.

Lemma Encode_nil (b : Bucket.t) :
  Bucket.Meta b = None -> Bucket.Encode b = Panic NilDereference.
Proof. intros HM. unfold Bucket.Encode, Bucket.deref_Meta. rewrite HM. reflexivity. Qed.

(** ** The decoders *)

(** A slice expression inside the length sees the elements only. *)
Lemma reslice_within (s : slice) (lo hi : Z) :
  0 <= lo <= hi -> hi <= len s ->
  exists w,
    reslice s lo hi = Ok w /\
    elems w = firstn (Z.to_nat (hi - lo)) (skipn (Z.to_nat lo) (elems s)) /\
    len w = hi - lo.
Proof.
  intros H0 H1. pose proof (cap_ge_len s) as Hc.
  eexists. split; [apply reslice_Ok; lia|]. split.
  - cbn [elems]. unfold len in H1.
    rewrite firstn_app.
    replace (Z.to_nat hi - length (elems s))%nat with 0%nat by lia.
    cbn [firstn]. rewrite app_nil_r, skipn_firstn_comm. f_equal. lia.
  - apply len_reslice; lia.
Qed.

Lemma firstn_firstn_same (n : nat) (l : list byte) :
  firstn n (firstn n l) = firstn n l.
Proof. rewrite firstn_firstn. f_equal. lia. Qed.

Lemma BucketMeta_Decode_Ok (meta : BucketMeta.t) (bytes : slice) :
  BucketMetaSize <= len bytes ->
  BucketMeta.Decode meta bytes =
  Ok (BucketMeta.mk (le_combine (firstn 4 (elems bytes)))
                    (le_combine (firstn 2 (skipn 4 (elems bytes))))
                    (le_combine (firstn 4 (skipn 6 (elems bytes)))),
      bytes).
Proof.
  rewrite BucketMetaSize_eq. intros H. unfold BucketMeta.Decode, slice_to.
  rewrite BucketMetaSize_eq, index_nth_error by lia.
  destruct (nth_error (elems bytes) (Z.to_nat (10 - 1))) eqn:E.
  2:{ apply nth_error_None in E. unfold len in H. lia. }
  cbn [bind].
  destruct (reslice_within bytes 0 4) as (w1 & -> & E1 & L1); try lia.
  cbn [bind]. rewrite Uint32_spec, E1 by lia. cbn [bind].
  destruct (reslice_within bytes 4 6) as (w2 & -> & E2 & L2); try lia.
  cbn [bind]. rewrite Uint16_spec, E2 by lia. cbn [bind].
  destruct (reslice_within bytes 6 10) as (w3 & -> & E3 & L3); try lia.
  cbn [bind]. rewrite Uint32_spec, E3 by lia. cbn [bind].
  closed_to_nat. cbn [skipn BucketMeta.Crc BucketMeta.Op BucketMeta.Size].
  rewrite !firstn_firstn_same. reflexivity.
Qed.

Lemma BucketMeta_Decode_Panic (meta : BucketMeta.t) (bytes : slice) :
  len bytes < BucketMetaSize ->
  BucketMeta.Decode meta bytes = Panic IndexOutOfRange.
Proof.
  intros H. unfold BucketMeta.Decode.
  rewrite index_Panic by lia. reflexivity.
Qed.

Lemma Bucket_Decode_Ok (b : Bucket.t) (bytes : slice) :
  IdSize + DsSize <= len bytes ->
  Bucket.Decode b bytes =
  Ok (Bucket.mk (Bucket.Meta b)
                (le_combine (firstn 8 (elems bytes)))
                (le_combine (firstn 2 (skipn 8 (elems bytes))))
                (skipn 10 (elems bytes)),
      bytes, None).
Proof.
  unfold IdSize, DsSize. intros H. unfold Bucket.Decode, slice_to, slice_from, IdSize, DsSize.
  destruct (reslice_within bytes 0 8) as (w1 & -> & E1 & L1); try lia.
  cbn [bind]. rewrite Uint64_spec, E1 by lia. cbn [bind].
  destruct (reslice_within bytes 8 (8 + 2)) as (w2 & -> & E2 & L2); try lia.
  cbn [bind]. rewrite Uint16_spec, E2 by lia. cbn [bind].
  destruct (reslice_within bytes (8 + 2) (len bytes)) as (w3 & -> & E3 & L3); try lia.
  cbn [bind]. unfold string_of. rewrite E3.
  replace (Z.to_nat (len bytes - (8 + 2))) with (length (elems bytes) - 10)%nat
    by (unfold len; lia).
  closed_to_nat. cbn [skipn Bucket.Meta Bucket.Id Bucket.Ds Bucket.Name].
  rewrite !firstn_firstn_same, <- length_skipn, firstn_all. reflexivity.
Qed.

(** Below ten bytes the last slice expression, [bytes[IdSize+DsSize:]], is out
    of bounds whatever the capacity; the earlier ones are when the capacity
    is short too. *)
Lemma Bucket_Decode_Panic (b : Bucket.t) (bytes : slice) :
  len bytes < IdSize + DsSize ->
  Bucket.Decode b bytes = Panic SliceBoundsOutOfRange.
Proof.
  unfold IdSize, DsSize. intros H.
  unfold Bucket.Decode, slice_to, slice_from, IdSize, DsSize.
  destruct (Z_le_gt_dec 8 (cap bytes)) as [H8 | H8].
  2:{ rewrite reslice_Panic by lia. reflexivity. }
  rewrite reslice_Ok by lia. cbn [bind].
  rewrite Uint64_spec by (rewrite len_reslice; lia). cbn [bind].
  destruct (Z_le_gt_dec (8 + 2) (cap bytes)) as [H10 | H10].
  2:{ rewrite reslice_Panic by lia. reflexivity. }
  rewrite reslice_Ok by lia. cbn [bind].
  rewrite Uint16_spec by (rewrite len_reslice; lia). cbn [bind].
  rewrite reslice_Panic by lia. reflexivity.
Qed.

(** ** The encoded record and its two halves *)

Lemma firstn_app_exact (n : nat) (l r : list byte) :
  length l = n -> firstn n (l ++ r) = l.
Proof.
  intros <-. rewrite firstn_app, Nat.sub_diag, firstn_all. cbn [firstn].
  apply app_nil_r.
Qed.

Lemma skipn_app_exact (n : nat) (l r : list byte) :
  length l = n -> skipn n (l ++ r) = r.
Proof.
  intros <-. rewrite skipn_app, Nat.sub_diag, skipn_all. reflexivity.
Qed.

Lemma len_encoded (m : BucketMeta.t) (b : Bucket.t) :
  len (encoded m b) = Bucket.GetEntrySize b.
Proof.
  unfold len, encoded, Bucket.GetEntrySize. cbn [elems].
  rewrite !length_app, length_le_split, length_header_rest, BucketMetaSize_eq.
  pose proof (length_payload b). lia.
Qed.

Lemma encoded_from_4 (m : BucketMeta.t) (b : Bucket.t) :
  slice_from (encoded m b) 4 = Ok (mkSlice (header_rest m b ++ payload b) []).
Proof.
  pose proof (len_encoded m b) as L. pose proof (length_payload b) as P.
  unfold Bucket.GetEntrySize, Bucket.GetPayloadSize, IdSize, DsSize in *.
  rewrite BucketMetaSize_eq in L.
  pose proof (cap_ge_len (encoded m b)).
  unfold slice_from. rewrite reslice_Ok by lia.
  replace (Z.to_nat (len (encoded m b))) with (length (elems (encoded m b)))
    by (unfold len; lia).
  unfold encoded. cbn [spare elems]. rewrite app_nil_r, firstn_all, skipn_all.
  closed_to_nat. rewrite skipn_app_exact by apply length_le_split. reflexivity.
Qed.

Lemma encoded_to_4 (m : BucketMeta.t) (b : Bucket.t) :
  slice_to (encoded m b) 4 =
  Ok (mkSlice (le_split 4 (checksum m b)) (header_rest m b ++ payload b)).
Proof.
  pose proof (len_encoded m b) as L. pose proof (length_payload b) as P.
  unfold Bucket.GetEntrySize, Bucket.GetPayloadSize, IdSize, DsSize in *.
  rewrite BucketMetaSize_eq in L.
  pose proof (cap_ge_len (encoded m b)).
  unfold slice_to. rewrite reslice_Ok by lia.
  unfold encoded. cbn [spare elems]. rewrite app_nil_r. closed_to_nat.
  change (skipn 0 ?l) with l.
  rewrite firstn_app_exact, skipn_app_exact by apply length_le_split.
  reflexivity.
Qed.

Lemma encoded_from_header (m : BucketMeta.t) (b : Bucket.t) :
  slice_from (encoded m b) BucketMetaSize = Ok (mkSlice (payload b) []).
Proof.
  pose proof (len_encoded m b) as L. pose proof (length_payload b) as P.
  unfold Bucket.GetEntrySize, Bucket.GetPayloadSize, IdSize, DsSize in *.
  rewrite BucketMetaSize_eq in *.
  pose proof (cap_ge_len (encoded m b)).
  unfold slice_from. rewrite reslice_Ok by lia.
  replace (Z.to_nat (len (encoded m b))) with (length (elems (encoded m b)))
    by (unfold len; lia).
  unfold encoded. cbn [spare elems]. rewrite app_nil_r, firstn_all, skipn_all.
  closed_to_nat. rewrite app_assoc, skipn_app_exact; [reflexivity|].
  rewrite length_app, length_le_split, length_header_rest. reflexivity.
Qed.

Lemma encoded_to_header (m : BucketMeta.t) (b : Bucket.t) :
  slice_to (encoded m b) BucketMetaSize =
  Ok (mkSlice (le_split 4 (checksum m b) ++ header_rest m b) (payload b)).
Proof.
  pose proof (len_encoded m b) as L. pose proof (length_payload b) as P.
  unfold Bucket.GetEntrySize, Bucket.GetPayloadSize, IdSize, DsSize in *.
  rewrite BucketMetaSize_eq in *.
  pose proof (cap_ge_len (encoded m b)).
  unfold slice_to. rewrite reslice_Ok by lia.
  unfold encoded. cbn [spare elems]. rewrite app_nil_r, app_assoc. closed_to_nat.
  change (skipn 0 ?l) with l.
  rewrite firstn_app_exact, skipn_app_exact; try reflexivity;
    rewrite length_app, length_le_split, length_header_rest; reflexivity.
Qed.

Lemma Uint32_le_split (c : Z) (sp : list byte) :
  0 <= c < 2 ^ 32 -> LittleEndian.Uint32 (mkSlice (le_split 4 c) sp) = Ok c.
Proof.
  intros H. rewrite Uint32_spec by (unfold len; cbn [elems]; rewrite length_le_split; lia).
  cbn [elems]. rewrite firstn_all2 by (rewrite length_le_split; lia).
  rewrite le_combine_split. f_equal. apply Z.mod_small. cbn. lia.
Qed.

Lemma payload_Id (b : Bucket.t) :
  firstn 8 (payload b) = le_split 8 (uint64 (Bucket.Id b)).
Proof. apply firstn_app_exact, length_le_split. Qed.

Lemma payload_Ds (b : Bucket.t) :
  firstn 2 (skipn 8 (payload b)) = le_split 2 (uint16 (Bucket.Ds b)).
Proof.
  unfold payload. rewrite (skipn_app_exact 8) by apply length_le_split.
  apply firstn_app_exact, length_le_split.
Qed.

Lemma payload_Name (b : Bucket.t) : skipn 10 (payload b) = Bucket.Name b.
Proof.
  unfold payload. rewrite app_assoc. apply skipn_app_exact.
  rewrite length_app, !length_le_split. reflexivity.
Qed.

Lemma payload_decodes (b b0 : Bucket.t) (sp : list byte) :
  Bucket.Decode b0 (mkSlice (payload b) sp) =
  Ok (Bucket.mk (Bucket.Meta b0) (uint64 (Bucket.Id b)) (uint16 (Bucket.Ds b))
                (Bucket.Name b),
      mkSlice (payload b) sp, None).
Proof.
  pose proof (length_payload b) as P.
  rewrite Bucket_Decode_Ok
    by (unfold len; cbn [elems]; unfold Bucket.GetPayloadSize in P; lia).
  cbn [elems]. rewrite payload_Id, payload_Ds, payload_Name, !le_combine_split.
  change (2 ^ (Z.of_nat 8 * 8)) with (2 ^ 64).
  change (2 ^ (Z.of_nat 2 * 8)) with (2 ^ 16).
  unfold uint64, uint16. rewrite !Z.mod_mod by lia. reflexivity.
Qed.

(** Case analysis on the receiver's header pointer: [Encode] returns the
    record, or panics on a nil [Meta]. *)
Ltac encode_cases B :=
  let m := fresh "m" in
  let HM := fresh "HM" in
  destruct (Bucket.Meta B) as [m|] eqn:HM;
  [ rewrite (Encode_encoded B m HM) | rewrite (Encode_nil B HM) ].

(** ** The checksum of two buffers, header windows, long names *)

Lemma GetCRC_concat (b : Bucket.t) (headerBuf dataBuf : slice) :
  4 <= len headerBuf ->
  Bucket.GetCRC b headerBuf dataBuf =
  Ok (crc32.ChecksumIEEE (mkSlice (skipn 4 (elems headerBuf) ++ elems dataBuf) [])).
Proof.
  intros H. unfold Bucket.GetCRC, slice_from.
  destruct (reslice_within headerBuf 4 (len headerBuf)) as (w & -> & E & L); try lia.
  cbn [bind]. f_equal. unfold crc32.ChecksumIEEE. apply Update_app.
  cbn [elems]. rewrite E. f_equal. symmetry.
  apply firstn_all2. rewrite length_skipn. unfold len. lia.
Qed.

Lemma window_of_prefix (a n k : nat) (l : list byte) :
  (a + n <= k)%nat -> firstn n (skipn a l) = firstn n (skipn a (firstn k l)).
Proof.
  intros H. rewrite skipn_firstn_comm, firstn_firstn. f_equal. lia.
Qed.

Lemma header_windows (l l' : list byte) :
  firstn 10 l' = firstn 10 l ->
  firstn 4 l' = firstn 4 l /\
  firstn 2 (skipn 4 l') = firstn 2 (skipn 4 l) /\
  firstn 4 (skipn 6 l') = firstn 4 (skipn 6 l).
Proof.
  intros E. split; [|split].
  - apply (f_equal (firstn 4)) in E. rewrite !firstn_firstn in E. exact E.
  - rewrite (window_of_prefix 4 2 10 l'), (window_of_prefix 4 2 10 l) by lia.
    rewrite E. reflexivity.
  - rewrite (window_of_prefix 6 4 10 l'), (window_of_prefix 6 4 10 l) by lia.
    rewrite E. reflexivity.
Qed.

Lemma uint32_small (x : Z) : 0 <= x < 2 ^ 32 -> uint32 x = x.
Proof. apply Z.mod_small. Qed.

Lemma GetPayloadSize_nonneg (b : Bucket.t) : 0 <= Bucket.GetPayloadSize b.
Proof. unfold Bucket.GetPayloadSize, IdSize, DsSize. lia. Qed.

Lemma long_name_length : Z.of_nat (length long_name) = 2 ^ 32 - 10.
Proof.
  unfold long_name. rewrite repeat_length. apply Z2Nat.id. lia.
Qed.

Lemma long_payload_size : Bucket.GetPayloadSize long_bucket = 2 ^ 32.
Proof.
  unfold Bucket.GetPayloadSize, IdSize, DsSize, long_bucket.
  cbv [Bucket.Name]. rewrite long_name_length. reflexivity.
Qed.

Lemma long_bucket_wf : Bucket.wf long_bucket.
Proof.
  cbv [Bucket.wf long_bucket Bucket.Id Bucket.Ds Bucket.Meta BucketMeta.wf
       BucketMeta.Crc BucketMeta.Op BucketMeta.Size BucketInsertOperation].
  lia.
Qed.

Lemma long_bucket_Size :
  BucketMeta.Size (encoded_meta (BucketMeta.mk 0 BucketInsertOperation 0) long_bucket) = 0.
Proof.
  cbv [encoded_meta BucketMeta.Size]. rewrite long_payload_size. reflexivity.
Qed.

(** * The claims *)

(** C1. The round trip through the [Meta.Size] bytes after the header fails
    for a name of [2 ^ 32 - 10] bytes: the payload is [2 ^ 32] bytes long, but
    [Encode] leaves [uint32(2 ^ 32) = 0] in [Meta.Size], so the [Meta.Size]
    bytes after the header are no bytes at all, and [Bucket.Decode] panics on
    them instead of reproducing [Id], [Ds] and [Name]. *)
Theorem C1_long_name_unreadable :
  exists buf B' m' sized rest,
    Bucket.wf long_bucket /\
    Bucket.Encode long_bucket = Ok (buf, B') /\ Bucket.Meta B' = Some m' /\
    slice_from buf BucketMetaSize = Ok rest /\ len rest = 2 ^ 32 /\
    reslice buf BucketMetaSize (BucketMetaSize + BucketMeta.Size m') = Ok sized /\
    len sized = 0 /\
    forall b0 : Bucket.t, Bucket.Decode b0 sized = Panic SliceBoundsOutOfRange.
Proof.
  set (m := BucketMeta.mk 0 BucketInsertOperation 0).
  assert (HL : len (mkSlice (payload long_bucket) []) = 2 ^ 32).
  { unfold len. cbn [elems]. rewrite length_payload. exact long_payload_size. }
  assert (HC : BucketMetaSize + 0 <= cap (encoded m long_bucket)).
  { pose proof (cap_ge_len (encoded m long_bucket)) as H.
    rewrite len_encoded in H. unfold Bucket.GetEntrySize in H.
    rewrite long_payload_size, BucketMetaSize_eq in *. lia. }
  destruct (reslice (encoded m long_bucket) BucketMetaSize (BucketMetaSize + 0))
    as [sized|p] eqn:ES.
  2:{ rewrite reslice_Ok in ES by (rewrite BucketMetaSize_eq in *; lia).
      discriminate ES. }
  assert (H0 : len sized = 0) by (rewrite (reslice_len _ _ _ _ ES); lia).
  exists (encoded m long_bucket), (Bucket.mk (Some (encoded_meta m long_bucket)) 1 1 long_name),
         (encoded_meta m long_bucket), sized, (mkSlice (payload long_bucket) []).
  split; [exact long_bucket_wf|].
  split; [apply (Encode_encoded long_bucket m eq_refl)|].
  split; [reflexivity|]. split; [apply encoded_from_header|]. split; [exact HL|].
  subst m. rewrite long_bucket_Size.
  split; [exact ES|]. split; [exact H0|].
  intros b0. apply Bucket_Decode_Panic. rewrite H0. reflexivity.
Qed.

(** C2. The buffer [Encode] returns carries at offset 0, little endian, the
    CRC-32 (IEEE) of its bytes from offset 4 to the end, and the receiver's
    [Meta.Crc] is that checksum after the call; [Encode] returns a buffer
    unless the receiver's [Meta] is nil. *)
Theorem C2_encode_embeds_checksum (B : Bucket.t) :
  match Bucket.Encode B with
  | Ok (buf, B') =>
      exists c32,
        (rest <- slice_from buf 4 ;; Ok (crc32.ChecksumIEEE rest)) = Ok c32 /\
        (crc <- slice_to buf 4 ;; LittleEndian.Uint32 crc) = Ok c32 /\
        option_map BucketMeta.Crc (Bucket.Meta B') = Some c32
  | Panic p => p = NilDereference /\ Bucket.Meta B = None
  end.
Proof.
  encode_cases B.
  - exists (checksum m B). split; [|split].
    + rewrite encoded_from_4. reflexivity.
    + rewrite encoded_to_4. cbn [bind].
      apply Uint32_le_split, ChecksumIEEE_range.
    + reflexivity.
  - split; reflexivity.
Qed.

(** C3. With at least four bytes in [headerBuf], [GetCRC(headerBuf, dataBuf)]
    is the CRC-32 (IEEE) of the single buffer [headerBuf[4:] ++ dataBuf]; and
    on the header and payload halves of a buffer returned by [Encode],
    sliced from it or held in buffers of their own, it is the value embedded
    at offset 0 and stored in [Meta.Crc]. *)
Theorem C3_GetCRC_matches_Encode :
  (forall (b : Bucket.t) (headerBuf dataBuf : slice),
     4 <= len headerBuf ->
     Bucket.GetCRC b headerBuf dataBuf =
     Ok (crc32.ChecksumIEEE
           (mkSlice (skipn 4 (elems headerBuf) ++ elems dataBuf) []))) /\
  (forall B : Bucket.t,
     match Bucket.Encode B with
     | Ok (buf, B') =>
         exists headerBuf dataBuf c32,
           slice_to buf BucketMetaSize = Ok headerBuf /\
           slice_from buf BucketMetaSize = Ok dataBuf /\
           (forall h d : slice,
              elems h = elems headerBuf -> elems d = elems dataBuf ->
              Bucket.GetCRC B' h d = Ok c32) /\
           (crc <- slice_to buf 4 ;; LittleEndian.Uint32 crc) = Ok c32 /\
           option_map BucketMeta.Crc (Bucket.Meta B') = Some c32
     | Panic p => p = NilDereference /\ Bucket.Meta B = None
     end).
Proof.
  split; [exact GetCRC_concat|]. intros B. encode_cases B.
  - eexists _, _, (checksum m B).
    split; [apply encoded_to_header|]. split; [apply encoded_from_header|].
    split; [|split].
    + cbn [elems]. intros h d Eh Ed.
      rewrite GetCRC_concat
        by (unfold len; rewrite Eh, length_app, length_le_split,
            length_header_rest; lia).
      apply f_equal, ChecksumIEEE_elems. cbn [elems].
      rewrite Eh, Ed, skipn_app_exact by apply length_le_split.
      reflexivity.
    + rewrite encoded_to_4. cbn [bind].
      apply Uint32_le_split, ChecksumIEEE_range.
    + reflexivity.
  - split; reflexivity.
Qed.

Lemma C3_witness :
  4 <= len sample_header /\
  Bucket.GetCRC sample_bucket sample_header sample_payload =
  Ok (crc32.ChecksumIEEE
        (mkSlice (skipn 4 (elems sample_header) ++ elems sample_payload) [])).
Proof.
  assert (H : 4 <= len sample_header) by (vm_compute; discriminate).
  split; [exact H|].
  exact (proj1 C3_GetCRC_matches_Encode sample_bucket sample_header sample_payload H).
Defined.

(** C4. On a slice of at least [MetaSize] bytes [BucketMeta.Decode] sets
    [Crc] to the little-endian 32-bit integer at [0:4), [Op] to the
    little-endian 16-bit integer at [4:6) and [Size] to the little-endian
    32-bit integer at [6:10); it checks no checksum (every such slice
    decodes), and the result depends on the first ten bytes only. *)
Theorem C4_meta_decode_layout (meta : BucketMeta.t) (bytes : slice) :
  BucketMetaSize <= len bytes ->
  BucketMeta.Decode meta bytes =
  Ok (BucketMeta.mk (le_combine (firstn 4 (elems bytes)))
                    (le_combine (firstn 2 (skipn 4 (elems bytes))))
                    (le_combine (firstn 4 (skipn 6 (elems bytes)))),
      bytes) /\
  forall (meta' : BucketMeta.t) (bytes' : slice),
    BucketMetaSize <= len bytes' ->
    firstn 10 (elems bytes') = firstn 10 (elems bytes) ->
    exists decoded,
      BucketMeta.Decode meta bytes = Ok (decoded, bytes) /\
      BucketMeta.Decode meta' bytes' = Ok (decoded, bytes').
Proof.
  intros H. split; [apply BucketMeta_Decode_Ok, H|].
  intros meta' bytes' H' E. eexists. split; [apply BucketMeta_Decode_Ok, H|].
  rewrite BucketMeta_Decode_Ok by exact H'.
  destruct (header_windows _ _ E) as (-> & -> & ->). reflexivity.
Qed.

Lemma C4_witness :
  BucketMetaSize <= len sample_header /\
  BucketMeta.Decode (BucketMeta.mk 0 0 0) sample_header =
  Ok (BucketMeta.mk 0x12345678 BucketUpdateOperation 11, sample_header).
Proof.
  assert (H : BucketMetaSize <= len sample_header) by (vm_compute; discriminate).
  split; [exact H|].
  rewrite (proj1 (C4_meta_decode_layout (BucketMeta.mk 0 0 0) sample_header H)).
  vm_compute. reflexivity.
Defined.

(** C5. The entry size is the header size plus the payload size, the payload
    size is 8 + 2 + len(Name) = 10 + len(Name), and the buffer [Encode]
    returns is exactly [GetEntrySize()] bytes long; [Encode] returns a buffer
    unless the receiver's [Meta] is nil. *)
Theorem C5_sizes (B : Bucket.t) :
  Bucket.GetEntrySize B = BucketMetaSize + Bucket.GetPayloadSize B /\
  Bucket.GetPayloadSize B = 8 + 2 + Z.of_nat (length (Bucket.Name B)) /\
  Bucket.GetPayloadSize B = 10 + Z.of_nat (length (Bucket.Name B)) /\
  match Bucket.Encode B with
  | Ok (buf, _) => len buf = Bucket.GetEntrySize B
  | Panic p => p = NilDereference /\ Bucket.Meta B = None
  end.
Proof.
  split; [reflexivity|]. split; [reflexivity|]. split.
  - unfold Bucket.GetPayloadSize, IdSize, DsSize. lia.
  - encode_cases B.
    + apply len_encoded.
    + split; reflexivity.
Qed.

(** C6. [Encode] does not set [Meta.Size] to the payload size for a name of
    [2 ^ 32 - 10] bytes: the payload size 10 + len(Name) is [2 ^ 32], and the
    conversion [uint32(b.GetPayloadSize())] leaves 0 in [Meta.Size]. *)
Theorem C6_long_name_Size_zero :
  exists buf B' m',
    Bucket.wf long_bucket /\
    Bucket.Encode long_bucket = Ok (buf, B') /\
    Bucket.Meta B' = Some m' /\
    BucketMeta.Size m' = 0 /\
    10 + Z.of_nat (length (Bucket.Name long_bucket)) = 2 ^ 32 /\
    BucketMeta.Size m' <> 10 + Z.of_nat (length (Bucket.Name long_bucket)).
Proof.
  eexists _, _, _. split; [exact long_bucket_wf|].
  split; [apply (Encode_encoded long_bucket _ eq_refl)|].
  split; [reflexivity|]. rewrite long_bucket_Size.
  assert (E : 10 + Z.of_nat (length (Bucket.Name long_bucket)) = 2 ^ 32).
  { unfold long_bucket. cbv [Bucket.Name]. rewrite long_name_length. reflexivity. }
  split; [reflexivity|]. split; [exact E|]. rewrite E. discriminate.
Qed.

(** C7 (amended). The header size computed by [init] from the fields of a
    zero [BucketMeta] is the byte width of its three fields, 4 + 2 + 4 = 10:
    the header is the first ten bytes of an encoded record and the payload
    (id, data structure, name) begins at offset 10. *)
Theorem C7_header_size :
  BucketMetaSize = GetDiskSizeFromSingleObject BucketMeta_fields /\
  map kind_width BucketMeta_fields = [4; 2; 4] /\
  BucketMetaSize = 4 + 2 + 4 /\
  BucketMetaSize = 10 /\
  forall B : Bucket.t,
    match Bucket.Encode B with
    | Ok (buf, _) =>
        exists header rest,
          slice_to buf BucketMetaSize = Ok header /\ len header = 10 /\
          slice_from buf 10 = Ok rest /\
          elems rest =
            le_split 8 (uint64 (Bucket.Id B)) ++
            le_split 2 (uint16 (Bucket.Ds B)) ++ Bucket.Name B
    | Panic p => p = NilDereference /\ Bucket.Meta B = None
    end.
Proof.
  repeat (split; [reflexivity|]). intros B. encode_cases B.
  - eexists _, _. split; [apply encoded_to_header|]. split; [reflexivity|].
    split; [apply (encoded_from_header m B)|]. reflexivity.
  - split; reflexivity.
Qed.

(** C7, as stated: the widths of the three fields are not 4, 2 and 6, and the
    header size is not their sum 4 + 2 + 6. *)
Lemma C7_counterexample :
  map kind_width BucketMeta_fields <> [4; 2; 6] /\ BucketMetaSize <> 4 + 2 + 6.
Proof. split; vm_compute; intros E; discriminate E. Qed.

(** C8. The bucket with Id 42, Ds 1, name "orders" and operation insert (1)
    encodes to 26 bytes; the first 10 decode, as a header, to Op 1 and
    Size 16; the other 16 decode, as a payload, to Id 42, Ds 1 and name
    "orders". *)
Theorem C8_orders_scenario (meta0 : BucketMeta.t) (b0 : Bucket.t) :
  exists buf B' header rest crc,
    Bucket.Encode orders_bucket = Ok (buf, B') /\
    len buf = 26 /\ 26 = BucketMetaSize + IdSize + DsSize + 6 /\
    slice_to buf 10 = Ok header /\ len header = 10 /\
    BucketMeta.Decode meta0 header = Ok (BucketMeta.mk crc 1 16, header) /\
    slice_from buf 10 = Ok rest /\ len rest = 16 /\
    Bucket.Decode b0 rest =
    Ok (Bucket.mk (Bucket.Meta b0) 42 1 (String.list_byte_of_string "orders"),
        rest, None).
Proof.
  eexists _, _, _, _, _.
  split; [vm_compute; reflexivity|].
  split; [reflexivity|]. split; [reflexivity|].
  split; [vm_compute; reflexivity|]. split; [reflexivity|].
  split.
  { rewrite BucketMeta_Decode_Ok by (vm_compute; discriminate).
    vm_compute. reflexivity. }
  split; [vm_compute; reflexivity|]. split; [reflexivity|].
  rewrite Bucket_Decode_Ok by (vm_compute; discriminate).
  vm_compute. reflexivity.
Qed.

(** C9. Each decoder completes exactly when its input is long enough:
    [BucketMeta.Decode] on [MetaSize] bytes or more, [Bucket.Decode] on ten
    bytes or more; on a shorter input each panics with an out-of-bounds
    access. *)
Theorem C9_decoders_total_exactly
    (meta : BucketMeta.t) (b : Bucket.t) (bytes : slice) :
  match BucketMeta.Decode meta bytes with
  | Ok _ => BucketMetaSize <= len bytes
  | Panic p => len bytes < BucketMetaSize /\ out_of_bounds p = true
  end /\
  match Bucket.Decode b bytes with
  | Ok _ => 10 <= len bytes
  | Panic p => len bytes < 10 /\ out_of_bounds p = true
  end.
Proof.
  split.
  - destruct (Z_lt_ge_dec (len bytes) BucketMetaSize) as [Hlt | Hge].
    + rewrite BucketMeta_Decode_Panic by exact Hlt. split; [exact Hlt | reflexivity].
    + rewrite BucketMeta_Decode_Ok by lia. lia.
  - destruct (Z_lt_ge_dec (len bytes) 10) as [Hlt | Hge].
    + rewrite Bucket_Decode_Panic by exact Hlt. split; [exact Hlt | reflexivity].
    + rewrite Bucket_Decode_Ok by (unfold IdSize, DsSize; lia). lia.
Qed.

(** C10. On a payload of ten bytes or more [Bucket.Decode] returns a nil
    error, never [ErrBucketCrcInvalid]; it leaves the receiver's [Meta] and
    the bytes it was given as they were, and what it decodes does not depend
    on the receiver, so on no stored checksum. *)
Theorem C10_decode_returns_nil (b : Bucket.t) (bytes : slice) :
  10 <= len bytes ->
  exists b',
    Bucket.Decode b bytes = Ok (b', bytes, None) /\
    Bucket.Decode b bytes <> Ok (b', bytes, Some ErrBucketCrcInvalid) /\
    Bucket.Meta b' = Bucket.Meta b /\
    forall other : Bucket.t,
      exists other',
        Bucket.Decode other bytes = Ok (other', bytes, None) /\
        Bucket.Meta other' = Bucket.Meta other /\
        Bucket.Id other' = Bucket.Id b' /\ Bucket.Ds other' = Bucket.Ds b' /\
        Bucket.Name other' = Bucket.Name b'.
Proof.
  intros H. eexists. rewrite Bucket_Decode_Ok by (unfold IdSize, DsSize; lia).
  split; [reflexivity|]. split; [intros E; discriminate E|]. split; [reflexivity|].
  intros other. eexists. rewrite Bucket_Decode_Ok by (unfold IdSize, DsSize; lia).
  repeat split.
Qed.

Lemma C10_witness :
  10 <= len sample_payload /\
  exists b',
    Bucket.Decode sample_bucket sample_payload = Ok (b', sample_payload, None) /\
    Bucket.Decode sample_bucket sample_payload <>
      Ok (b', sample_payload, Some ErrBucketCrcInvalid) /\
    Bucket.Meta b' = Bucket.Meta sample_bucket /\
    forall other : Bucket.t,
      exists other',
        Bucket.Decode other sample_payload = Ok (other', sample_payload, None) /\
        Bucket.Meta other' = Bucket.Meta other /\
        Bucket.Id other' = Bucket.Id b' /\ Bucket.Ds other' = Bucket.Ds b' /\
        Bucket.Name other' = Bucket.Name b'.
Proof.
  assert (H : 10 <= len sample_payload) by (vm_compute; discriminate).
  split; [exact H|].
  exact (C10_decode_returns_nil sample_bucket sample_payload H).
Defined.

(** * Further properties of the codec *)

(** ** One changed byte changes the checksum *)

Lemma all_distinct_NoDup (l : list Z) : all_distinct l = true -> NoDup l.
Proof.
  induction l as [|x t IH]; cbn [all_distinct]; intros H; constructor.
  - apply andb_true_iff in H as [H _]. apply negb_true_iff in H.
    intros Hin. assert (E : existsb (Z.eqb x) t = true).
    { apply existsb_exists. exists x. split; [exact Hin | apply Z.eqb_refl]. }
    congruence.
  - apply IH. apply andb_true_iff in H as [_ H]. exact H.
Qed.

Lemma IEEETable_length : length crc32.IEEETable = 256%nat.
Proof. reflexivity. Qed.

(** The entries of the table differ in their top bytes already. *)
Lemma IEEETable_top_bytes (i j : nat) :
  (i < 256)%nat -> (j < 256)%nat ->
  Z.shiftr (nth i crc32.IEEETable 0) 24 = Z.shiftr (nth j crc32.IEEETable 0) 24 ->
  i = j.
Proof.
  intros Hi Hj E. set (top := fun t => Z.shiftr t 24) in *.
  assert (N : NoDup (map top crc32.IEEETable)).
  { apply all_distinct_NoDup. vm_compute. reflexivity. }
  rewrite (NoDup_nth _ (top 0)) in N. apply N.
  - rewrite length_map, IEEETable_length. exact Hi.
  - rewrite length_map, IEEETable_length. exact Hj.
  - rewrite !map_nth. exact E.
Qed.

Lemma lxor_cancel_l (a b c : Z) : Z.lxor a b = Z.lxor a c -> b = c.
Proof.
  intros H. apply (f_equal (Z.lxor a)) in H.
  rewrite <- !Z.lxor_assoc, Z.lxor_nilpotent, !Z.lxor_0_l in H. exact H.
Qed.

Lemma lxor_cancel_r (a b c : Z) : Z.lxor b a = Z.lxor c a -> b = c.
Proof. rewrite !(Z.lxor_comm _ a). apply lxor_cancel_l. Qed.

(** The index into the table, [byte(crc)^v]. *)
Lemma table_index_range (crc : Z) (v : byte) :
  0 <= Z.lxor (crc mod 2 ^ 8) (byte.unsigned v) < 2 ^ 8.
Proof.
  apply lxor_range; [lia | | apply byte.unsigned_range].
  apply Z.mod_pos_bound. lia.
Qed.

Lemma step_top_byte (crc : Z) (v : byte) :
  0 <= crc < 2 ^ 32 ->
  Z.shiftr (crc32.step crc32.IEEETable crc v) 24 =
  Z.shiftr (nth (Z.to_nat (Z.lxor (crc mod 2 ^ 8) (byte.unsigned v)))
                crc32.IEEETable 0) 24.
Proof.
  intros H. unfold crc32.step.
  rewrite Z.shiftr_lxor, Z.shiftr_shiftr by lia.
  replace (Z.shiftr crc (8 + 24)) with 0; [apply Z.lxor_0_r|].
  rewrite Z.shiftr_div_pow2 by lia. symmetry. apply Z.div_small. exact H.
Qed.

(** One turn of the loop loses nothing of the running checksum... *)
Lemma step_inj_crc (crc crc' : Z) (v : byte) :
  0 <= crc < 2 ^ 32 -> 0 <= crc' < 2 ^ 32 ->
  crc32.step crc32.IEEETable crc v = crc32.step crc32.IEEETable crc' v ->
  crc = crc'.
Proof.
  intros H H' E.
  pose proof (table_index_range crc v) as R.
  pose proof (table_index_range crc' v) as R'.
  assert (Ei : Z.to_nat (Z.lxor (crc mod 2 ^ 8) (byte.unsigned v)) =
               Z.to_nat (Z.lxor (crc' mod 2 ^ 8) (byte.unsigned v))).
  { apply IEEETable_top_bytes; try lia.
    rewrite <- !step_top_byte by assumption. rewrite E. reflexivity. }
  unfold crc32.step in E. rewrite Ei in E. apply lxor_cancel_l in E.
  apply Z2Nat.inj in Ei; try lia. apply lxor_cancel_r in Ei.
  rewrite !Z.shiftr_div_pow2 in E by lia.
  rewrite (Z.div_mod crc (2 ^ 8)), (Z.div_mod crc' (2 ^ 8)) by lia.
  rewrite E, Ei. reflexivity.
Qed.

(** ... and nothing of the byte it takes in. *)
Lemma step_inj_byte (crc : Z) (v v' : byte) :
  crc32.step crc32.IEEETable crc v = crc32.step crc32.IEEETable crc v' ->
  v = v'.
Proof.
  intros E. unfold crc32.step in E. apply lxor_cancel_r in E.
  pose proof (table_index_range crc v) as R.
  pose proof (table_index_range crc v') as R'.
  assert (Ei : Z.to_nat (Z.lxor (crc mod 2 ^ 8) (byte.unsigned v)) =
               Z.to_nat (Z.lxor (crc mod 2 ^ 8) (byte.unsigned v'))).
  { apply IEEETable_top_bytes; try lia. rewrite E. reflexivity. }
  apply Z2Nat.inj in Ei; try lia. apply lxor_cancel_l in Ei.
  apply byte.unsigned_inj, Ei.
Qed.

Lemma fold_step_inj (p : list byte) (crc crc' : Z) :
  0 <= crc < 2 ^ 32 -> 0 <= crc' < 2 ^ 32 ->
  fold_left (crc32.step crc32.IEEETable) p crc =
  fold_left (crc32.step crc32.IEEETable) p crc' ->
  crc = crc'.
Proof.
  revert crc crc'. induction p as [|v p IH]; intros crc crc' H H' E.
  - exact E.
  - cbn [fold_left] in E. apply IH in E; try (apply step_range; assumption).
    apply (step_inj_crc _ _ v); assumption.
Qed.

Lemma ChecksumIEEE_one_byte (p q : list byte) (a b : byte) (sp sp' : list byte) :
  a <> b ->
  crc32.ChecksumIEEE (mkSlice (p ++ a :: q) sp) <>
  crc32.ChecksumIEEE (mkSlice (p ++ b :: q) sp').
Proof.
  intros Hab E. unfold crc32.ChecksumIEEE, crc32.Update, crc32.simpleUpdate in E.
  cbn [elems] in E. apply lxor_cancel_r in E.
  rewrite !fold_left_app in E. cbn [fold_left] in E.
  assert (R : 0 <= fold_left (crc32.step crc32.IEEETable) p (crc32.not32 0) < 2 ^ 32)
    by (apply fold_step_range, not32_range; lia).
  apply fold_step_inj in E; try (apply step_range; exact R).
  apply step_inj_byte in E. contradiction.
Qed.

(** ** Reading a record back *)

Lemma encoded_header_decodes
    (m meta0 : BucketMeta.t) (b : Bucket.t) (sp : list byte) :
  0 <= BucketMeta.Op m < 2 ^ 16 ->
  BucketMeta.Decode meta0 (mkSlice (le_split 4 (checksum m b) ++ header_rest m b) sp) =
  Ok (encoded_meta m b, mkSlice (le_split 4 (checksum m b) ++ header_rest m b) sp).
Proof.
  intros HOp. rewrite BucketMeta_Decode_Ok by reflexivity. cbn [elems].
  rewrite firstn_app_exact by apply length_le_split.
  rewrite (skipn_app_exact 4) by apply length_le_split.
  unfold header_rest at 1.
  rewrite firstn_app_exact by apply length_le_split.
  replace (skipn 6 (le_split 4 (checksum m b) ++ header_rest m b))
    with (le_split 4 (uint32 (Bucket.GetPayloadSize b))).
  2:{ unfold header_rest. rewrite app_assoc. symmetry. apply skipn_app_exact.
      rewrite length_app, !length_le_split. reflexivity. }
  rewrite firstn_all2 by (rewrite length_le_split; lia).
  rewrite !le_combine_split. unfold encoded_meta. do 2 f_equal.
  change (2 ^ (Z.of_nat 4 * 8)) with (2 ^ 32).
  change (2 ^ (Z.of_nat 2 * 8)) with (2 ^ 16).
  unfold uint32, uint16. rewrite !Z.mod_mod by lia.
  rewrite (Z.mod_small (BucketMeta.Op m)) by exact HOp.
  rewrite (Z.mod_small (checksum m b)) by apply ChecksumIEEE_range.
  reflexivity.
Qed.

(** X1. The header round trip: the first [MetaSize] bytes of the buffer
    [Encode] returns decode, with [BucketMeta.Decode], to the header the
    receiver holds after the call (checksum, operation and size), whatever
    the header decoded into held before. *)
Theorem X1_header_round_trip (B : Bucket.t) (m meta0 : BucketMeta.t) :
  Bucket.Meta B = Some m -> 0 <= BucketMeta.Op m < 2 ^ 16 ->
  exists buf B' header m',
    Bucket.Encode B = Ok (buf, B') /\ Bucket.Meta B' = Some m' /\
    slice_to buf BucketMetaSize = Ok header /\
    BucketMeta.Decode meta0 header = Ok (m', header).
Proof.
  intros HM HOp. eexists _, _, _, _.
  split; [apply Encode_encoded, HM|]. split; [reflexivity|].
  split; [apply encoded_to_header|]. apply encoded_header_decodes, HOp.
Qed.

Lemma X1_witness :
  0 <= BucketMeta.Op (BucketMeta.mk 5 BucketDeleteOperation 9) < 2 ^ 16 /\
  exists buf B' header m',
    Bucket.Encode sample_bucket = Ok (buf, B') /\ Bucket.Meta B' = Some m' /\
    slice_to buf BucketMetaSize = Ok header /\
    BucketMeta.Decode (BucketMeta.mk 0 0 0) header = Ok (m', header).
Proof.
  assert (H : 0 <= BucketMeta.Op (BucketMeta.mk 5 BucketDeleteOperation 9) < 2 ^ 16)
    by (unfold BucketDeleteOperation; simpl; lia).
  split; [exact H|].
  exact (X1_header_round_trip sample_bucket _ (BucketMeta.mk 0 0 0) eq_refl H).
Defined.

(** X2. Reading a record back in two passes: the header decoded from the
    first [MetaSize] bytes gives the size of what follows; when the payload
    size fits 32 bits, header plus [Meta.Size] bytes is the whole record,
    [GetCRC] over the two pieces is the checksum the header carries, and the
    second piece decodes to the [Id], [Ds] and [Name] that were encoded. *)
Theorem X2_read_back (B b0 : Bucket.t) (m meta0 : BucketMeta.t) :
  Bucket.wf B -> Bucket.Meta B = Some m -> Bucket.GetPayloadSize B < 2 ^ 32 ->
  exists buf B' header meta' data b1,
    Bucket.Encode B = Ok (buf, B') /\
    slice_to buf BucketMetaSize = Ok header /\
    BucketMeta.Decode meta0 header = Ok (meta', header) /\
    BucketMetaSize + BucketMeta.Size meta' = len buf /\
    reslice buf BucketMetaSize (BucketMetaSize + BucketMeta.Size meta') = Ok data /\
    Bucket.GetCRC b0 header data = Ok (BucketMeta.Crc meta') /\
    Bucket.Decode b0 data = Ok (b1, data, None) /\
    Bucket.Id b1 = Bucket.Id B /\ Bucket.Ds b1 = Bucket.Ds B /\
    Bucket.Name b1 = Bucket.Name B.
Proof.
  intros (HId & HDs & HMeta) HM Hlt. rewrite HM in HMeta.
  destruct HMeta as (_ & HOp & _).
  assert (HS : BucketMetaSize + BucketMeta.Size (encoded_meta m B) = len (encoded m B)).
  { rewrite len_encoded. unfold Bucket.GetEntrySize. cbn [encoded_meta BucketMeta.Size].
    rewrite uint32_small; [reflexivity|].
    unfold Bucket.GetPayloadSize, IdSize, DsSize in *. lia. }
  eexists (encoded m B), _, _, (encoded_meta m B), (mkSlice (payload B) []), _.
  split; [apply Encode_encoded, HM|]. split; [apply encoded_to_header|].
  split; [apply encoded_header_decodes, HOp|]. split; [exact HS|]. split.
  { rewrite HS. apply (encoded_from_header m B). } split.
  { rewrite GetCRC_concat
      by (unfold len; cbn [elems];
          rewrite length_app, length_le_split, length_header_rest; lia).
    cbn [elems encoded_meta BucketMeta.Crc].
    rewrite skipn_app_exact by apply length_le_split. reflexivity. }
  rewrite payload_decodes. split; [reflexivity|].
  cbn [Bucket.Id Bucket.Ds Bucket.Name]. unfold uint64, uint16.
  rewrite !Z.mod_small by assumption. repeat split.
Qed.

Lemma X2_witness :
  Bucket.wf sample_bucket /\ Bucket.GetPayloadSize sample_bucket < 2 ^ 32 /\
  exists buf B' header meta' data b1,
    Bucket.Encode sample_bucket = Ok (buf, B') /\
    slice_to buf BucketMetaSize = Ok header /\
    BucketMeta.Decode (BucketMeta.mk 0 0 0) header = Ok (meta', header) /\
    BucketMetaSize + BucketMeta.Size meta' = len buf /\
    reslice buf BucketMetaSize (BucketMetaSize + BucketMeta.Size meta') = Ok data /\
    Bucket.GetCRC orders_bucket header data = Ok (BucketMeta.Crc meta') /\
    Bucket.Decode orders_bucket data = Ok (b1, data, None) /\
    Bucket.Id b1 = Bucket.Id sample_bucket /\ Bucket.Ds b1 = Bucket.Ds sample_bucket /\
    Bucket.Name b1 = Bucket.Name sample_bucket.
Proof.
  assert (H : Bucket.wf sample_bucket).
  { unfold Bucket.wf, BucketMeta.wf, sample_bucket, BucketDeleteOperation.
    simpl. lia. }
  assert (H' : Bucket.GetPayloadSize sample_bucket < 2 ^ 32) by reflexivity.
  split; [exact H|]. split; [exact H'|].
  exact (X2_read_back sample_bucket orders_bucket _ (BucketMeta.mk 0 0 0) H eq_refl H').
Defined.

(** ** Encoding again, and telling records apart *)

Lemma encoded_depends_on (m m' : BucketMeta.t) (b b' : Bucket.t) :
  BucketMeta.Op m' = BucketMeta.Op m -> Bucket.Id b' = Bucket.Id b ->
  Bucket.Ds b' = Bucket.Ds b -> Bucket.Name b' = Bucket.Name b ->
  encoded m' b' = encoded m b /\ encoded_meta m' b' = encoded_meta m b.
Proof.
  intros EOp EId EDs EName.
  unfold encoded, encoded_meta, checksum, header_rest, payload, Bucket.GetPayloadSize.
  rewrite EOp, EId, EDs, EName. split; reflexivity.
Qed.

(** X3. What [Encode] returns depends on the operation, [Id], [Ds] and
    [Name] only, not on the checksum and size the header held: overwriting
    those two fields first makes no difference, and encoding the receiver
    again, as the first call left it, returns the same bytes and changes
    nothing more. *)
Theorem X3_encode_again
    (B B' : Bucket.t) (m : BucketMeta.t) (buf : slice) (crc size : Z) :
  Bucket.Meta B = Some m -> Bucket.Encode B = Ok (buf, B') ->
  Bucket.Encode B' = Ok (buf, B') /\
  Bucket.Encode (Bucket.mk (Some (BucketMeta.mk crc (BucketMeta.Op m) size))
                           (Bucket.Id B) (Bucket.Ds B) (Bucket.Name B)) =
  Ok (buf, B').
Proof.
  intros HM HE. rewrite (Encode_encoded B m HM) in HE. injection HE as <- <-.
  assert (G : forall m' : BucketMeta.t,
            BucketMeta.Op m' = BucketMeta.Op m ->
            Bucket.Encode (Bucket.mk (Some m') (Bucket.Id B) (Bucket.Ds B) (Bucket.Name B)) =
            Ok (encoded m B,
                Bucket.mk (Some (encoded_meta m B)) (Bucket.Id B) (Bucket.Ds B)
                          (Bucket.Name B))).
  { intros m' EOp.
    set (b' := Bucket.mk (Some m') (Bucket.Id B) (Bucket.Ds B) (Bucket.Name B)).
    rewrite (Encode_encoded b' m' eq_refl).
    destruct (encoded_depends_on m m' B b' EOp) as [-> ->]; reflexivity. }
  split; apply G; reflexivity.
Qed.

Lemma X3_witness :
  exists buf B',
    Bucket.Encode sample_bucket = Ok (buf, B') /\
    Bucket.Encode B' = Ok (buf, B') /\
    Bucket.Encode (Bucket.mk (Some (BucketMeta.mk 77 BucketDeleteOperation 88))
                             1 2 [Byte.x7a]) = Ok (buf, B').
Proof.
  eexists _, _.
  assert (E : Bucket.Encode sample_bucket =
              Ok (encoded (BucketMeta.mk 5 BucketDeleteOperation 9) sample_bucket,
                  Bucket.mk (Some (encoded_meta (BucketMeta.mk 5 BucketDeleteOperation 9)
                                                sample_bucket)) 1 2 [Byte.x7a]))
    by (apply Encode_encoded; reflexivity).
  split; [exact E|].
  exact (X3_encode_again sample_bucket _ (BucketMeta.mk 5 BucketDeleteOperation 9) _
           77 88 eq_refl E).
Defined.

Lemma skipn_header (c4 hr p : list byte) :
  length c4 = 4%nat -> length hr = 6%nat -> skipn 10 (c4 ++ hr ++ p) = p.
Proof.
  intros H4 H6. rewrite app_assoc. apply skipn_app_exact.
  rewrite length_app, H4, H6. reflexivity.
Qed.

Lemma firstn_header (c4 hr p : list byte) :
  length c4 = 4%nat -> length hr = 6%nat -> firstn 10 (c4 ++ hr ++ p) = c4 ++ hr.
Proof.
  intros H4 H6. rewrite app_assoc. apply firstn_app_exact.
  rewrite length_app, H4, H6. reflexivity.
Qed.

(** X4. Records tell buckets apart: two buckets whose encoded records hold
    the same bytes have the same [Id], [Ds], [Name] and operation; so two
    buckets of one name created with different ids never encode alike. *)
Theorem X4_records_tell_buckets_apart
    (B1 B2 B1' B2' : Bucket.t) (m1 m2 : BucketMeta.t) (buf1 buf2 : slice) :
  Bucket.wf B1 -> Bucket.wf B2 ->
  Bucket.Meta B1 = Some m1 -> Bucket.Meta B2 = Some m2 ->
  Bucket.Encode B1 = Ok (buf1, B1') -> Bucket.Encode B2 = Ok (buf2, B2') ->
  (elems buf1 = elems buf2 ->
   Bucket.Id B1 = Bucket.Id B2 /\ Bucket.Ds B1 = Bucket.Ds B2 /\
   Bucket.Name B1 = Bucket.Name B2 /\ BucketMeta.Op m1 = BucketMeta.Op m2) /\
  (Bucket.Id B1 <> Bucket.Id B2 -> elems buf1 <> elems buf2).
Proof.
  intros (HId1 & HDs1 & HMeta1) (HId2 & HDs2 & HMeta2) HM1 HM2 HE1 HE2.
  rewrite HM1 in HMeta1. rewrite HM2 in HMeta2.
  destruct HMeta1 as (_ & HOp1 & _). destruct HMeta2 as (_ & HOp2 & _).
  rewrite (Encode_encoded B1 m1 HM1) in HE1. injection HE1 as <- <-.
  rewrite (Encode_encoded B2 m2 HM2) in HE2. injection HE2 as <- <-.
  assert (G : elems (encoded m1 B1) = elems (encoded m2 B2) ->
              Bucket.Id B1 = Bucket.Id B2 /\ Bucket.Ds B1 = Bucket.Ds B2 /\
              Bucket.Name B1 = Bucket.Name B2 /\ BucketMeta.Op m1 = BucketMeta.Op m2).
  { cbn [elems encoded]. intros E.
    assert (EP : payload B1 = payload B2).
    { apply (f_equal (skipn 10)) in E.
      rewrite !skipn_header in E by (apply length_le_split || apply length_header_rest).
      exact E. }
    assert (EH : le_split 4 (checksum m1 B1) ++ header_rest m1 B1 =
                 le_split 4 (checksum m2 B2) ++ header_rest m2 B2).
    { apply (f_equal (firstn 10)) in E.
      rewrite !firstn_header in E by (apply length_le_split || apply length_header_rest).
      exact E. }
    pose proof (payload_decodes B1 B1 []) as D1.
    pose proof (payload_decodes B2 B1 []) as D2.
    rewrite EP, D2 in D1. injection D1 as EId EDs EName.
    unfold uint64 in EId. unfold uint16 in EDs.
    rewrite !Z.mod_small in EId, EDs by assumption.
    pose proof (encoded_header_decodes m1 m1 B1 [] HOp1) as M1.
    pose proof (encoded_header_decodes m2 m1 B2 [] HOp2) as M2.
    rewrite EH, M2 in M1. injection M1 as _ EOp _.
    repeat split; congruence. }
  split; [exact G|]. intros Hne E. apply Hne, G, E.
Qed.

Lemma X4_witness :
  Bucket.wf sample_bucket /\ Bucket.wf orders_bucket /\
  Bucket.Id sample_bucket <> Bucket.Id orders_bucket /\
  exists buf1 buf2 B1' B2',
    Bucket.Encode sample_bucket = Ok (buf1, B1') /\
    Bucket.Encode orders_bucket = Ok (buf2, B2') /\
    elems buf1 <> elems buf2.
Proof.
  assert (H1 : Bucket.wf sample_bucket).
  { unfold Bucket.wf, BucketMeta.wf, sample_bucket, BucketDeleteOperation.
    simpl. lia. }
  assert (H2 : Bucket.wf orders_bucket).
  { unfold Bucket.wf, BucketMeta.wf, orders_bucket, BucketInsertOperation.
    simpl. lia. }
  assert (Hne : Bucket.Id sample_bucket <> Bucket.Id orders_bucket)
    by (simpl; lia).
  split; [exact H1|]. split; [exact H2|]. split; [exact Hne|].
  eexists _, _, _, _.
  assert (E1 := Encode_encoded sample_bucket _ eq_refl).
  assert (E2 := Encode_encoded orders_bucket _ eq_refl).
  split; [exact E1|]. split; [exact E2|].
  exact (proj2 (X4_records_tell_buckets_apart _ _ _ _ _ _ _ _ H1 H2 eq_refl eq_refl E1 E2)
           Hne).
Defined.

(** ** From bytes to a bucket and back *)

Lemma le_split_le_combine_firstn (n : nat) (l : list byte) :
  (n <= length l)%nat ->
  le_split n (le_combine (firstn n l) mod 2 ^ (Z.of_nat n * 8)) = firstn n l.
Proof.
  intros H. rewrite <- le_split_mod. apply split_le_combine'.
  rewrite length_firstn. lia.
Qed.

(** X5. [Bucket.Decode] takes the whole slice: the name is everything after
    the tenth byte, so the decoded bucket's payload size is the length of
    the slice; and it loses nothing: encoding the decoded bucket lays the
    same bytes down again after the header. *)
Theorem X5_decode_then_encode (b0 : Bucket.t) (m : BucketMeta.t) (bytes : slice) :
  Bucket.Meta b0 = Some m -> 10 <= len bytes ->
  exists b1 buf b2 rest,
    Bucket.Decode b0 bytes = Ok (b1, bytes, None) /\
    Bucket.GetPayloadSize b1 = len bytes /\
    Bucket.Encode b1 = Ok (buf, b2) /\
    slice_from buf BucketMetaSize = Ok rest /\
    elems rest = elems bytes.
Proof.
  intros HM H.
  set (b1 := Bucket.mk (Some m)
               (le_combine (firstn 8 (elems bytes)))
               (le_combine (firstn 2 (skipn 8 (elems bytes))))
               (skipn 10 (elems bytes))).
  exists b1, (encoded m b1),
         (Bucket.mk (Some (encoded_meta m b1)) (Bucket.Id b1) (Bucket.Ds b1)
                    (Bucket.Name b1)),
         (mkSlice (payload b1) []).
  split.
  { rewrite Bucket_Decode_Ok by (unfold IdSize, DsSize; lia).
    rewrite HM. reflexivity. }
  split.
  { unfold Bucket.GetPayloadSize, IdSize, DsSize, b1. cbn [Bucket.Name].
    rewrite length_skipn. unfold len in *. lia. }
  split; [apply Encode_encoded; reflexivity|].
  split; [apply encoded_from_header|].
  cbn [elems]. unfold payload, b1, uint64, uint16. cbn [Bucket.Id Bucket.Ds Bucket.Name].
  rewrite (le_split_le_combine_firstn 8) by (unfold len in H; lia).
  rewrite (le_split_le_combine_firstn 2) by (rewrite length_skipn; unfold len in H; lia).
  change 10%nat with (2 + 8)%nat. rewrite <- skipn_skipn.
  rewrite (firstn_skipn 2), (firstn_skipn 8). reflexivity.
Qed.

Lemma X5_witness :
  10 <= len sample_payload /\
  exists b1 buf b2 rest,
    Bucket.Decode sample_bucket sample_payload = Ok (b1, sample_payload, None) /\
    Bucket.GetPayloadSize b1 = len sample_payload /\
    Bucket.Encode b1 = Ok (buf, b2) /\
    slice_from buf BucketMetaSize = Ok rest /\
    elems rest = elems sample_payload.
Proof.
  assert (H : 10 <= len sample_payload) by (vm_compute; discriminate).
  split; [exact H|].
  exact (X5_decode_then_encode sample_bucket _ sample_payload eq_refl H).
Defined.

(** ** The checksum helper at its edges *)

Lemma GetCRC_Panic (b : Bucket.t) (headerBuf dataBuf : slice) :
  len headerBuf < 4 ->
  Bucket.GetCRC b headerBuf dataBuf = Panic SliceBoundsOutOfRange.
Proof.
  intros H. unfold Bucket.GetCRC, slice_from.
  rewrite reslice_Panic by lia. reflexivity.
Qed.

(** X6. [GetCRC] panics, out of bounds, exactly when [headerBuf] has fewer
    than four bytes; otherwise its result is settled by the bytes of
    [headerBuf] from the fifth on and the bytes of [dataBuf]: neither the
    receiver, nor the four bytes where the checksum itself is kept, nor spare
    capacity matter. *)
Theorem X6_GetCRC_edges (b b' : Bucket.t) (headerBuf headerBuf' dataBuf dataBuf' : slice) :
  match Bucket.GetCRC b headerBuf dataBuf with
  | Ok _ => 4 <= len headerBuf
  | Panic p => len headerBuf < 4 /\ p = SliceBoundsOutOfRange
  end /\
  (4 <= len headerBuf -> 4 <= len headerBuf' ->
   skipn 4 (elems headerBuf') = skipn 4 (elems headerBuf) ->
   elems dataBuf' = elems dataBuf ->
   Bucket.GetCRC b' headerBuf' dataBuf' = Bucket.GetCRC b headerBuf dataBuf).
Proof.
  split.
  - destruct (Z_lt_ge_dec (len headerBuf) 4) as [Hlt | Hge].
    + rewrite GetCRC_Panic by exact Hlt. split; [exact Hlt | reflexivity].
    + rewrite GetCRC_concat by lia. lia.
  - intros H H' Eh Ed. rewrite !GetCRC_concat by assumption.
    rewrite Eh, Ed. reflexivity.
Qed.

Lemma X6_witness :
  4 <= len sample_header /\
  Bucket.GetCRC orders_bucket
    (mkSlice [Byte.x00; Byte.x00; Byte.x00; Byte.x00; Byte.x02; Byte.x00;
              Byte.x0b; Byte.x00; Byte.x00; Byte.x00; Byte.xff] [])
    (mkSlice (elems sample_payload) []) =
  Bucket.GetCRC sample_bucket sample_header sample_payload.
Proof.
  assert (H : 4 <= len sample_header) by (vm_compute; discriminate).
  split; [exact H|].
  refine (proj2 (X6_GetCRC_edges sample_bucket orders_bucket sample_header _
                   sample_payload _) H _ eq_refl eq_refl).
  vm_compute. discriminate.
Defined.

(** ** A changed byte is found out *)

Lemma replace_in_app (l1 l2 : list byte) (a b : byte) :
  firstn (length l1) (l1 ++ a :: l2) ++ [b] ++ skipn (length l1 + 1) (l1 ++ a :: l2) =
  l1 ++ b :: l2.
Proof.
  rewrite firstn_app_exact by reflexivity. f_equal. cbn [app]. f_equal.
  change (a :: l2) with ([a] ++ l2). rewrite app_assoc.
  apply skipn_app_exact. rewrite length_app. reflexivity.
Qed.

(** A record whose first four bytes are the checksum of the rest, with one
    byte changed, no longer is one. *)
Lemma changed_byte_mismatch (c4 rest sp : list byte) (i : nat) (b' : byte) :
  length c4 = 4%nat ->
  le_combine c4 = crc32.ChecksumIEEE (mkSlice rest []) ->
  (i < length (c4 ++ rest))%nat ->
  nth i (c4 ++ rest) Byte.x00 <> b' ->
  crc32.ChecksumIEEE
    (mkSlice (skipn 4 (firstn i (c4 ++ rest) ++ [b'] ++ skipn (i + 1) (c4 ++ rest))) sp) <>
  le_combine (firstn 4 (firstn i (c4 ++ rest) ++ [b'] ++ skipn (i + 1) (c4 ++ rest))).
Proof.
  intros H4 Hc Hi Hne. destruct (Nat.lt_ge_cases i 4) as [Hlt | Hge].
  - rewrite app_nth1 in Hne by lia.
    destruct (nth_split c4 Byte.x00 (n := i)) as (l1 & l2 & E & L1); [lia|].
    set (a := nth i c4 Byte.x00) in *.
    assert (L : length (l1 ++ b' :: l2) = 4%nat).
    { rewrite E, length_app in H4. cbn [length] in H4.
      rewrite length_app. cbn [length]. exact H4. }
    replace (c4 ++ rest) with (l1 ++ a :: (l2 ++ rest))
      by (rewrite E, <- app_assoc; reflexivity).
    rewrite <- L1, replace_in_app.
    replace (l1 ++ b' :: l2 ++ rest) with ((l1 ++ b' :: l2) ++ rest)
      by (rewrite <- app_assoc; reflexivity).
    rewrite skipn_app_exact, firstn_app_exact by exact L.
    rewrite (ChecksumIEEE_elems _ (mkSlice rest [])) by reflexivity.
    rewrite <- Hc, E. intros Eq. apply le_combine_inj in Eq.
    + apply app_inv_head in Eq. injection Eq as Eq. contradiction.
    + rewrite !length_app. reflexivity.
  - rewrite app_nth2 in Hne by lia. rewrite H4 in Hne.
    rewrite length_app, H4 in Hi.
    destruct (nth_split rest Byte.x00 (n := i - 4)) as (r1 & r2 & E & L1); [lia|].
    set (a := nth (i - 4) rest Byte.x00) in *.
    assert (Ei : i = length (c4 ++ r1)) by (rewrite length_app, H4, L1; lia).
    clearbody a.
    replace (c4 ++ rest) with ((c4 ++ r1) ++ a :: r2)
      by (rewrite <- app_assoc; f_equal; symmetry; exact E).
    rewrite Ei, replace_in_app, <- app_assoc.
    rewrite skipn_app_exact, firstn_app_exact by exact H4.
    rewrite Hc, E. apply ChecksumIEEE_one_byte. congruence.
Qed.

(** X7. A changed byte is found out. Take a buffer returned by [Encode] and
    change any one of its bytes; split the result into header and payload,
    decode the header, and recompute the checksum with [GetCRC]: it returns
    a checksum, and that differs from the one the decoded header carries. *)
Theorem X7_changed_byte_is_found
    (B B' : Bucket.t) (buf : slice) (meta0 : BucketMeta.t) (i : Z) (b' : byte) :
  Bucket.Encode B = Ok (buf, B') ->
  0 <= i < len buf -> index buf i <> Ok b' ->
  exists header data meta',
    slice_to (store buf (Z.to_nat i) [b']) BucketMetaSize = Ok header /\
    slice_from (store buf (Z.to_nat i) [b']) BucketMetaSize = Ok data /\
    BucketMeta.Decode meta0 header = Ok (meta', header) /\
    exists c, Bucket.GetCRC B' header data = Ok c /\ c <> BucketMeta.Crc meta'.
Proof.
  intros HE Hi Hne.
  destruct (Bucket.Meta B) as [m|] eqn:HM.
  2:{ rewrite (Encode_nil B HM) in HE. discriminate HE. }
  rewrite (Encode_encoded B m HM) in HE. injection HE as <- <-.
  set (c4 := le_split 4 (checksum m B)) in *.
  set (rest := header_rest m B ++ payload B) in *.
  assert (H4 : length c4 = 4%nat) by apply length_le_split.
  assert (Hc : le_combine c4 = crc32.ChecksumIEEE (mkSlice rest [])).
  { unfold c4. rewrite le_combine_split. apply Z.mod_small, ChecksumIEEE_range. }
  assert (HL : 20 <= len (encoded m B)).
  { rewrite len_encoded. unfold Bucket.GetEntrySize, Bucket.GetPayloadSize, IdSize, DsSize.
    rewrite BucketMetaSize_eq. lia. }
  assert (El : elems (encoded m B) = c4 ++ rest) by reflexivity.
  rewrite index_nth_error in Hne by lia.
  assert (Hn : (Z.to_nat i < length (c4 ++ rest))%nat)
    by (rewrite <- El; unfold len in Hi; lia).
  rewrite El, (nth_error_nth' _ Byte.x00 Hn) in Hne.
  assert (Hne' : nth (Z.to_nat i) (c4 ++ rest) Byte.x00 <> b') by congruence.
  set (bad := store (encoded m B) (Z.to_nat i) [b']).
  assert (Eb : elems bad =
               firstn (Z.to_nat i) (c4 ++ rest) ++ [b'] ++
               skipn (Z.to_nat i + 1) (c4 ++ rest)) by reflexivity.
  assert (HLb : len bad = len (encoded m B)).
  { apply len_store. cbn [length]. lia. }
  rewrite BucketMetaSize_eq. unfold slice_to, slice_from.
  destruct (reslice_within bad 0 10) as (header & -> & Eh & Lh); try lia.
  destruct (reslice_within bad 10 (len bad)) as (data & -> & Ed & Ld); try lia.
  exists header, data. eexists.
  split; [reflexivity|]. split; [reflexivity|].
  split; [apply BucketMeta_Decode_Ok; rewrite BucketMetaSize_eq; lia|].
  assert (E4 : firstn 4 (elems header) = firstn 4 (elems bad)).
  { rewrite Eh. change (Z.to_nat (10 - 0)) with 10%nat.
    change (Z.to_nat 0) with 0%nat. change (skipn 0 (elems bad)) with (elems bad).
    rewrite firstn_firstn. reflexivity. }
  assert (Er : skipn 4 (elems header) ++ elems data = skipn 4 (elems bad)).
  { rewrite Eh, Ed. change (Z.to_nat (10 - 0)) with 10%nat.
    change (Z.to_nat 0) with 0%nat. change (Z.to_nat 10) with 10%nat.
    change (skipn 0 (elems bad)) with (elems bad).
    rewrite (firstn_all2 (n := Z.to_nat (len bad - 10)))
      by (rewrite length_skipn; unfold len; lia).
    rewrite <- (firstn_skipn 10 (elems bad)) at 3.
    rewrite skipn_app, length_firstn.
    replace (4 - Nat.min 10 (length (elems bad)))%nat with 0%nat
      by (unfold len in *; lia).
    reflexivity. }
  eexists. split; [apply GetCRC_concat; lia|].
  unfold BucketMeta.Crc. rewrite E4, Er, Eb.
  exact (changed_byte_mismatch c4 rest [] (Z.to_nat i) b' H4 Hc Hn Hne').
Qed.

Lemma X7_witness :
  exists buf B' header data meta',
    Bucket.Encode orders_bucket = Ok (buf, B') /\
    slice_to (store buf (Z.to_nat 12) [Byte.x2b]) BucketMetaSize = Ok header /\
    slice_from (store buf (Z.to_nat 12) [Byte.x2b]) BucketMetaSize = Ok data /\
    BucketMeta.Decode (BucketMeta.mk 0 0 0) header = Ok (meta', header) /\
    exists c, Bucket.GetCRC B' header data = Ok c /\ c <> BucketMeta.Crc meta'.
Proof.
  assert (E := Encode_encoded orders_bucket _ eq_refl).
  assert (Hi : 0 <= 12 < len (encoded (BucketMeta.mk 0 BucketInsertOperation 0)
                                 orders_bucket))
    by (vm_compute; split; [discriminate | reflexivity]).
  assert (Hne : index (encoded (BucketMeta.mk 0 BucketInsertOperation 0) orders_bucket) 12
                <> Ok Byte.x2b) by (vm_compute; discriminate).
  destruct (X7_changed_byte_is_found orders_bucket _ _ (BucketMeta.mk 0 0 0) 12 Byte.x2b
              E Hi Hne) as (header & data & meta' & H).
  eexists _, _, header, data, meta'. split; [exact E | exact H].
Defined.

(** ** The payload round trip, and what [Encode] changes *)

(** X8. The payload round trip: for a bucket with a non-nil [Meta], whatever
    the length of its name, decoding the bytes of the encoded record from
    offset [MetaSize] to the end reproduces [Id], [Ds] and [Name]; these
    bytes number 10 + len(Name), and they are the [Meta.Size] bytes after
    the header when that number is below [2 ^ 32]. *)
Theorem X8_payload_round_trip (B : Bucket.t) (m : BucketMeta.t) :
  Bucket.wf B -> Bucket.Meta B = Some m ->
  exists buf B' m' rest,
    Bucket.Encode B = Ok (buf, B') /\ Bucket.Meta B' = Some m' /\
    slice_from buf BucketMetaSize = Ok rest /\
    len rest = 10 + Z.of_nat (length (Bucket.Name B)) /\
    (10 + Z.of_nat (length (Bucket.Name B)) < 2 ^ 32 ->
     len rest = BucketMeta.Size m' /\
     reslice buf BucketMetaSize (BucketMetaSize + BucketMeta.Size m') = Ok rest) /\
    forall b0 : Bucket.t,
      exists b1,
        Bucket.Decode b0 rest = Ok (b1, rest, None) /\
        Bucket.Id b1 = Bucket.Id B /\ Bucket.Ds b1 = Bucket.Ds B /\
        Bucket.Name b1 = Bucket.Name B.
Proof.
  intros (HId & HDs & _) HM.
  assert (HP : Bucket.GetPayloadSize B = 10 + Z.of_nat (length (Bucket.Name B)))
    by (unfold Bucket.GetPayloadSize, IdSize, DsSize; lia).
  assert (HL : len (mkSlice (payload B) []) = 10 + Z.of_nat (length (Bucket.Name B))).
  { unfold len. cbn [elems]. rewrite length_payload. exact HP. }
  eexists (encoded m B), _, (encoded_meta m B), (mkSlice (payload B) []).
  split; [apply Encode_encoded, HM|]. split; [reflexivity|].
  split; [apply encoded_from_header|]. split; [exact HL|]. split.
  - intros Hlt. cbn [encoded_meta BucketMeta.Size].
    rewrite HP, uint32_small, <- HL by lia. split; [reflexivity|].
    rewrite <- (encoded_from_header m B). unfold slice_from. f_equal.
    rewrite len_encoded. unfold Bucket.GetEntrySize. rewrite HP. lia.
  - intros b0. eexists. rewrite payload_decodes. split; [reflexivity|].
    cbn [Bucket.Id Bucket.Ds Bucket.Name]. unfold uint64, uint16.
    rewrite !Z.mod_small by assumption. repeat split.
Qed.

Lemma X8_witness :
  Bucket.wf sample_bucket /\
  exists buf B' m' rest,
    Bucket.Encode sample_bucket = Ok (buf, B') /\ Bucket.Meta B' = Some m' /\
    slice_from buf BucketMetaSize = Ok rest /\
    len rest = 10 + Z.of_nat (length (Bucket.Name sample_bucket)) /\
    (10 + Z.of_nat (length (Bucket.Name sample_bucket)) < 2 ^ 32 ->
     len rest = BucketMeta.Size m' /\
     reslice buf BucketMetaSize (BucketMetaSize + BucketMeta.Size m') = Ok rest) /\
    forall b0 : Bucket.t,
      exists b1,
        Bucket.Decode b0 rest = Ok (b1, rest, None) /\
        Bucket.Id b1 = Bucket.Id sample_bucket /\
        Bucket.Ds b1 = Bucket.Ds sample_bucket /\
        Bucket.Name b1 = Bucket.Name sample_bucket.
Proof.
  assert (H : Bucket.wf sample_bucket).
  { unfold Bucket.wf, BucketMeta.wf, sample_bucket, BucketDeleteOperation.
    simpl. lia. }
  split; [exact H|].
  exact (X8_payload_round_trip sample_bucket _ H eq_refl).
Defined.

(** X9. What [Encode] changes on its receiver: [Meta.Crc] becomes the
    checksum of the returned buffer from offset 4, and [Meta.Size] the
    payload size 10 + len(Name) when that is below [2 ^ 32]; [Meta.Op], [Id],
    [Ds] and [Name] are as before. *)
Theorem X9_encode_changes_Size_and_Crc (B : Bucket.t) (m : BucketMeta.t) :
  Bucket.Meta B = Some m ->
  exists buf B' m',
    Bucket.Encode B = Ok (buf, B') /\ Bucket.Meta B' = Some m' /\
    (Bucket.GetPayloadSize B < 2 ^ 32 ->
     BucketMeta.Size m' = 10 + Z.of_nat (length (Bucket.Name B))) /\
    (rest <- slice_from buf 4 ;; Ok (crc32.ChecksumIEEE rest)) =
      Ok (BucketMeta.Crc m') /\
    BucketMeta.Op m' = BucketMeta.Op m /\
    Bucket.Id B' = Bucket.Id B /\ Bucket.Ds B' = Bucket.Ds B /\
    Bucket.Name B' = Bucket.Name B.
Proof.
  intros HM. eexists (encoded m B), _, (encoded_meta m B).
  assert (HP : Bucket.GetPayloadSize B = 10 + Z.of_nat (length (Bucket.Name B)))
    by (unfold Bucket.GetPayloadSize, IdSize, DsSize; lia).
  split; [apply Encode_encoded, HM|]. split; [reflexivity|].
  cbn [encoded_meta BucketMeta.Size BucketMeta.Crc BucketMeta.Op
       Bucket.Id Bucket.Ds Bucket.Name].
  split.
  - intros Hlt. rewrite <- HP. apply uint32_small.
    pose proof (GetPayloadSize_nonneg B). lia.
  - split; [|repeat split]. rewrite encoded_from_4. reflexivity.
Qed.

Lemma X9_witness :
  exists buf B' m',
    Bucket.Encode sample_bucket = Ok (buf, B') /\ Bucket.Meta B' = Some m' /\
    BucketMeta.Size m' = 11 /\
    (rest <- slice_from buf 4 ;; Ok (crc32.ChecksumIEEE rest)) =
      Ok (BucketMeta.Crc m') /\
    BucketMeta.Op m' = BucketDeleteOperation /\
    Bucket.Id B' = 1 /\ Bucket.Ds B' = 2 /\ Bucket.Name B' = [Byte.x7a].
Proof.
  destruct (X9_encode_changes_Size_and_Crc sample_bucket _ eq_refl)
    as (buf & B' & m' & HE & HM & HS & HC & HO & HI & HD & HN).
  exists buf, B', m'.
  split; [exact HE|]. split; [exact HM|].
  split; [exact (HS eq_refl)|]. split; [exact HC|].
  split; [exact HO|]. split; [exact HI|]. split; [exact HD | exact HN].
Defined.
